(** * glasso: regression diagnostics over a data frame

    A shallow embedding of the Go package [glasso]: the data frame
    ([df.go]), the regression diagnostics ([LeveragePoints],
    [CooksDistance], [PRESS], [VarianceCovarianceMatrix],
    [VarianceInflationFactors], [DFBETA], [DFFITS]) and the
    forward-stagewise estimator ([forward_stagewise.go]).

    Conventions.
    - A Go [float64] is a value of a type [F] with the operations of the
      class [Scalar].  Two instances are given: [float] (IEEE binary64, the
      kernel's primitive floats: what the Go program computes with) and [R]
      (exact real arithmetic: what the formulas mean "up to floating error").
    - A Go panic is the [Panic] outcome; code that updates an object in
      place is a function of the state-and-panic monad [M], so the state a
      panic leaves behind stays visible.
    - [mat64.Dense] is a record with the flat row-major backing slice that
      gonum uses; the numerical kernels of gonum ([QR], [Inverse]) are the
      fields of a record [Linalg] that the diagnostics take as an argument. *)

From Stdlib Require Import String.
From Stdlib Require Import Reals Lra.
From Stdlib Require Import Floats.PrimFloat.
From Stdlib Require Numbers.Cyclic.Int63.Uint63.
From Stdlib Require Import ZArith Lia Bool Arith PeanoNat List.
Import ListNotations.
Open Scope nat_scope.

Set Implicit Arguments.

(* ================================================================= *)
(** ** Outcomes and the state-and-panic monad *)

Inductive outcome (A : Type) : Type :=
| Ok (a : A)
| Panic (msg : string).

Arguments Ok {A} a.
Arguments Panic {A} msg.

Definition obind {A B} (m : outcome A) (k : A -> outcome B) : outcome B :=
  match m with
  | Ok a => k a
  | Panic e => Panic e
  end.

Declare Scope outcome_scope.
Delimit Scope outcome_scope with outcome.
Notation "x <- m ;; k" := (obind m (fun x => k))
  (at level 61, m at next level, right associativity) : outcome_scope.

(** A computation over a mutable object of type [S]: the object as the
    computation leaves it is returned also when the computation panics. *)
Definition M (S A : Type) : Type := S -> outcome A * S.

Definition ret {S A} (a : A) : M S A := fun s => (Ok a, s).

Definition bind {S A B} (m : M S A) (k : A -> M S B) : M S B :=
  fun s => match m s with
           | (Ok a, s') => k a s'
           | (Panic e, s') => (Panic e, s')
           end.

Definition panic {S A} (e : string) : M S A := fun s => (Panic e, s).
Definition get {S} : M S S := fun s => (Ok s, s).
Definition put {S} (s : S) : M S unit := fun _ => (Ok tt, s).
Definition lift {S A} (o : outcome A) : M S A := fun s => (o, s).

Declare Scope monad_scope.
Delimit Scope monad_scope with monad.
Notation "x <~ m ;; k" := (bind m (fun x => k))
  (at level 61, m at next level, right associativity) : monad_scope.
Notation "m ;;; k" := (bind m (fun _ => k))
  (at level 61, right associativity) : monad_scope.

(** The messages of the panics the code can raise. *)
Definition ErrIndexOutOfRange : string := "mat64: index out of range".
Definition ErrShape : string := "mat64: dimension mismatch".
Definition ErrSliceIndex : string := "runtime error: index out of range".
Definition ErrMakeSlice : string := "runtime error: makeslice: len out of range".
Definition ErrDivideByZero : string := "runtime error: integer divide by zero".

(* ================================================================= *)
(** ** Scalars *)

(** The operations the code applies to [float64] values. *)
Class Scalar (F : Type) : Type := {
  f0 : F;
  f1 : F;
  fadd : F -> F -> F;
  fsub : F -> F -> F;
  fmul : F -> F -> F;
  fdiv : F -> F -> F;
  fsqrt : F -> F;
  fltb : F -> F -> bool;
  fleb : F -> F -> bool;
  of_int : Z -> F
}.

(** [float64(z)] on binary64. *)
Definition float_of_Z (z : Z) : float :=
  match z with
  | Z0 => PrimFloat.zero
  | Zpos _ => PrimFloat.of_uint63 (Uint63.of_Z z)
  | Zneg p => PrimFloat.opp (PrimFloat.of_uint63 (Uint63.of_Z (Zpos p)))
  end.

#[export] Instance float_Scalar : Scalar float := {
  f0 := PrimFloat.zero;
  f1 := PrimFloat.one;
  fadd := PrimFloat.add;
  fsub := PrimFloat.sub;
  fmul := PrimFloat.mul;
  fdiv := PrimFloat.div;
  fsqrt := PrimFloat.sqrt;
  fltb := PrimFloat.ltb;
  fleb := PrimFloat.leb;
  of_int := float_of_Z
}.

#[export] Instance R_Scalar : Scalar R := {
  f0 := 0%R;
  f1 := 1%R;
  fadd := Rplus;
  fsub := Rminus;
  fmul := Rmult;
  fdiv := Rdiv;
  fsqrt := R_sqrt.sqrt;
  fltb := fun x y => if Rlt_dec x y then true else false;
  fleb := fun x y => if Rle_dec x y then true else false;
  of_int := IZR
}.

(* ================================================================= *)
(** ** Go slices *)

Section Slices.
Context {A : Type}.

(** [l[i] = v] on a slice without the bounds check. *)
Fixpoint upd (l : list A) (i : nat) (v : A) : list A :=
  match l, i with
  | [], _ => []
  | _ :: t, O => v :: t
  | h :: t, S i' => h :: upd t i' v
  end.

(** [l[i]]: a panic outside [0, len(l)). *)
Definition index (l : list A) (i : nat) : outcome A :=
  match nth_error l i with
  | Some v => Ok v
  | None => Panic ErrSliceIndex
  end.

(** [l[i] = v]: a panic outside [0, len(l)). *)
Definition assign (l : list A) (i : nat) (v : A) : outcome (list A) :=
  if i <? length l then Ok (upd l i v) else Panic ErrSliceIndex.

End Slices.

(** [make([]float64, n)] for a Go [int] n. *)
Definition make {F} `{Scalar F} (n : Z) : outcome (list F) :=
  if (n <? 0)%Z then Panic ErrMakeSlice else Ok (repeat f0 (Z.to_nat n)).

(* ================================================================= *)
(** ** gonum's [mat64.Dense]

    The matrix type of [github.com/gonum/matrix/mat64], as its
    documentation describes it: [r] rows and [c] columns over a flat
    row-major slice of [r*c] values.  The accessors panic outside the
    matrix; [Col] and [SetCol] copy [min(len(slice), rows)] values.
    ([Set] and [At] are given their bounds checks.  In a build of gonum
    without them a column index past the last column reaches into the next
    row, and past the last row it leaves the backing slice, where the Go
    runtime panics: a loop that runs the column index to [rows] on a matrix
    with fewer columns than rows panics either way.) *)

Record Dense (F : Type) : Type := mkDense {
  rows : nat;
  cols : nat;
  data : list F
}.

Arguments mkDense {F} rows cols data.

Section Mat64.
Context {F : Type} `{Scalar F}.

Definition wf (m : Dense F) : Prop := length (data m) = rows m * cols m.

(** [mat64.NewDense(r, c, mat)]; [None] is the [nil] slice. *)
Definition NewDense (r c : nat) (mat : option (list F)) : outcome (Dense F) :=
  match mat with
  | Some d => if length d =? r * c then Ok (mkDense r c d) else Panic ErrShape
  | None => Ok (mkDense r c (repeat f0 (r * c)))
  end.

Definition Dims (m : Dense F) : nat * nat := (rows m, cols m).

(** The value stored at row [r], column [c]. *)
Definition entry (m : Dense F) (r c : nat) : F :=
  nth (r * cols m + c) (data m) f0.

Definition in_range (m : Dense F) (r c : nat) : bool :=
  (r <? rows m) && (c <? cols m).

Definition At (m : Dense F) (r c : nat) : outcome F :=
  if in_range m r c then Ok (entry m r c) else Panic ErrIndexOutOfRange.

Definition Set_ (m : Dense F) (r c : nat) (v : F) : outcome (Dense F) :=
  if in_range m r c
  then Ok (mkDense (rows m) (cols m) (upd (data m) (r * cols m + c) v))
  else Panic ErrIndexOutOfRange.

Definition col_ok (m : Dense F) (j : Z) : bool :=
  (0 <=? j)%Z && (j <? Z.of_nat (cols m))%Z.

Definition column (m : Dense F) (j : nat) : list F :=
  map (fun r => entry m r j) (seq 0 (rows m)).

(** [m.Col(nil, j)]: a fresh slice holding column [j]. *)
Definition Col_nil (m : Dense F) (j : Z) : outcome (list F) :=
  if col_ok m j then Ok (column m (Z.to_nat j)) else Panic ErrIndexOutOfRange.

(** [m.Col(dst, j)] for a slice [dst] that is not nil: the contents of
    [dst] after the call (its first [min(len(dst), rows)] values are
    overwritten with the column). *)
Definition Col_into (dst : list F) (m : Dense F) (j : Z) : outcome (list F) :=
  if col_ok m j
  then let k := Nat.min (length dst) (rows m) in
       Ok (firstn k (column m (Z.to_nat j)) ++ skipn k dst)
  else Panic ErrIndexOutOfRange.

Definition setcol_data (d : list F) (c j k : nat) (src : list F) : list F :=
  fold_left (fun d r => upd d (r * c + j) (nth r src f0)) (seq 0 k) d.

(** [m.SetCol(j, src)]. *)
Definition SetCol (m : Dense F) (j : Z) (src : list F) : outcome (Dense F) :=
  if col_ok m j
  then Ok (mkDense (rows m) (cols m)
             (setcol_data (data m) (cols m) (Z.to_nat j)
                (Nat.min (length src) (rows m)) src))
  else Panic ErrIndexOutOfRange.

(** [mat64.DenseCopyOf(m)]: a new matrix with the same contents. *)
Definition DenseCopyOf (m : Dense F) : Dense F :=
  mkDense (rows m) (cols m) (data m).

(** Sums are accumulated from the left, starting at zero. *)
Definition fsum (l : list F) : F := fold_left fadd l f0.

(** Entry and dimensions of [m] read as its transpose when [t] holds. *)
Definition tentry (t : bool) (m : Dense F) (r c : nat) : F :=
  if t then entry m c r else entry m r c.
Definition trows (t : bool) (m : Dense F) : nat := if t then cols m else rows m.
Definition tcols (t : bool) (m : Dense F) : nat := if t then rows m else cols m.

Definition dot (ta : bool) (a : Dense F) (tb : bool) (b : Dense F) (r c : nat) : F :=
  fsum (map (fun k => fmul (tentry ta a r k) (tentry tb b k c)) (seq 0 (tcols ta a))).

Definition tabulate (r c : nat) (f : nat -> nat -> F) : Dense F :=
  mkDense r c (flat_map (fun i => map (f i) (seq 0 c)) (seq 0 r)).

(** The product of [a] and [b], each read as its transpose when its flag
    holds. *)
Definition product (ta : bool) (a : Dense F) (tb : bool) (b : Dense F) : Dense F :=
  tabulate (trows ta a) (tcols tb b) (dot ta a tb b).

(** [recv.MulTrans(a, aTrans, b, bTrans)].  [recv] gives the shape of the
    receiver when it is a matrix of its own that is not empty; it is [None]
    for the empty matrix [&mat64.Dense{}] and for a receiver that is one of
    the operands, which take the shape of the product. *)
Definition MulTrans (recv : option (nat * nat))
    (a : Dense F) (ta : bool) (b : Dense F) (tb : bool) : outcome (Dense F) :=
  if negb (tcols ta a =? trows tb b) then Panic ErrShape
  else
    match recv with
    | Some (rr, rc) =>
        if (rr =? trows ta a) && (rc =? tcols tb b)
        then Ok (product ta a tb b)
        else Panic ErrShape
    | None => Ok (product ta a tb b)
    end.

(** [recv.Mul(a, b)]. *)
Definition Mul (recv : option (nat * nat)) (a b : Dense F) : outcome (Dense F) :=
  MulTrans recv a false b false.

(** The all-zero matrix: what [NewDense(r, c, nil)] builds. *)
Definition zeros (r c : nat) : Dense F := mkDense r c (repeat f0 (r * c)).


(** Two matrices of one shape with the same entries. *)
Definition same_entries (a b : Dense F) : Prop :=
  rows a = rows b /\ cols a = cols b /\
  forall i j, i < rows a -> j < cols a -> entry a i j = entry b i j.




End Mat64.

(* ================================================================= *)
(** ** df.go: the data frame *)

(** A Go [error] value, by its message, and the package's two. *)
Definition error : Type := string.
Definition DimensionError : error :=
  "Error caused by wrong dimensionality"%string.
Definition LabelError : error := "Missing labels for columns"%string.

(** [type DataFrame struct].  [cols] and [rows] are set from [len(...)] by
    the constructors and are kept as natural numbers. *)
Record DataFrame (F : Type) : Type := mkDF {
  df_data : Dense F;
  df_cols : nat;
  df_rows : nat;
  df_labels : list string
}.

Arguments mkDF {F} df_data df_cols df_rows df_labels.

Section DataFrames.
Context {F : Type} `{Scalar F}.

(** [func DF(data, labels)]: returns the frame, or the error value
    [DimensionError] and no frame. *)
Definition DF (data : list F) (labels : list string)
  : outcome (DataFrame F + error) :=
  let cols := length labels in
  let ents := length data in
  if cols =? 0 then Panic ErrDivideByZero
  else if negb (ents mod cols =? 0) then Ok (inr DimensionError)
  else
    (d <- NewDense (ents / cols) cols (Some data) ;;
     Ok (inl (mkDF d cols (ents / cols) labels)))%outcome.

(** [func (df *DataFrame) Dim() (int, int)]. *)
Definition Dim (df : DataFrame F) : nat * nat := Dims (df_data df).

(** The closure [fc] of [Transform]: [buf[i] = f(buf[i])] for every [i]. *)
Definition fc (f : F -> F) (buf : list F) : list F := map f buf.

(** One round of the loop of [Transform]. *)
Definition Transform_col (f : F -> F) (col : Z) : M (DataFrame F) unit :=
  (df <~ get ;;
   let buf := repeat f0 (df_rows df) in
   buf <~ lift (Col_into buf (df_data df) col) ;;
   d <~ lift (SetCol (df_data df) col (fc f buf)) ;;
   put (mkDF d (df_cols df) (df_rows df) (df_labels df)))%monad.

(** [func (df *DataFrame) Transform(f func(x float64) float64, cols ...int)]. *)
Fixpoint Transform (f : F -> F) (cols : list Z) : M (DataFrame F) unit :=
  match cols with
  | [] => ret tt
  | col :: rest => (Transform_col f col ;;; Transform f rest)%monad
  end.

(** The columns [Transform] gets to before it meets an index that is not
    a column of the frame (where [Col] panics). *)
Fixpoint applied (ncols : nat) (cols : list Z) : list Z :=
  match cols with
  | [] => []
  | j :: rest =>
      if (0 <=? j)%Z && (j <? Z.of_nat ncols)%Z then j :: applied ncols rest
      else []
  end.

Definition times_listed (cols : list Z) (c : nat) : nat :=
  count_occ Z.eq_dec cols (Z.of_nat c).

(** The frames the constructors build: the recorded counts are the
    dimensions of the matrix, and the matrix fills its backing slice. *)
Definition wf_df (df : DataFrame F) : Prop :=
  wf (df_data df) /\
  df_rows df = rows (df_data df) /\
  df_cols df = cols (df_data df).

End DataFrames.

(* ================================================================= *)
(** ** Loops *)

(** [for _, b := range l { a = body(a, b) }], stopped by the first panic. *)
Fixpoint ofold {A B} (body : A -> B -> outcome A) (l : list B) (a : A)
  : outcome A :=
  match l with
  | [] => Ok a
  | b :: t => (a' <- body a b ;; ofold body t a')%outcome
  end.

(** The same loop over a mutable object. *)
Fixpoint mfold {S A B} (body : A -> B -> M S A) (l : list B) (a : A)
  : M S A :=
  match l with
  | [] => ret a
  | b :: t => (a' <~ body a b ;; mfold body t a')%monad
  end.

(** The indices [0 .. n-1] of [for i := 0; i < n; i++] for a Go [int] n. *)
Definition upto (n : Z) : list nat := seq 0 (Z.to_nat n).

(* ================================================================= *)
(** ** gonum's numerical kernels

    [mat64.QR] and [mat64.Inverse] are library code: the diagnostics take
    them as the fields of a [Linalg].  [QR] panics on a matrix with fewer
    rows than columns; [Inverse] returns an error ([None]) when it cannot
    invert.  Both are taken to leave the matrix they are given as it is,
    which is what the repository's tests rely on when they run one
    diagnostic after another on the same model. *)

Record QRFactor (F : Type) : Type := mkQR {
  qr_Q : Dense F;
  qr_R : Dense F
}.

Record Linalg (F : Type) : Type := mkLinalg {
  QR : Dense F -> outcome (QRFactor F);
  Inverse : Dense F -> option (Dense F)
}.

(* ================================================================= *)
(** ** The OLS model *)

(** Modelled from the spec: the [OLS] struct is declared in a file that is
    not among the sources.  Its fields are the ones the diagnostics use
    ([x], [n], [p], [residuals], [fitted], [hat]) and the ones section 3 of
    the specification lists (response and coefficient vectors). *)
Record OLS (F : Type) : Type := mkOLS {
  x : DataFrame F;
  n : Z;
  p : Z;
  response : list F;
  betas : list F;
  residuals : list F;
  fitted : list F;
  hat : option (Dense F)
}.

Arguments mkOLS {F} x n p response betas residuals fitted hat.

(** What a fit writes into the model. *)
Record fit (F : Type) : Type := mkFit {
  fit_response : list F;
  fit_betas : list F;
  fit_residuals : list F;
  fit_fitted : list F
}.

(** Modelled from the spec: [OLS.Train] is not among the sources.  By
    sections 3 and 4.1 a fit reads the design matrix and the response and
    writes the response, the coefficients, the fitted values and the
    residuals; it returns an error value ([None] is [nil]), and it may
    panic.  The fit itself is left open: it is the field [Train]. *)
Record Fitter (F : Type) : Type := mkFitter {
  Train : OLS F -> list F -> outcome (option error) * fit F
}.

Section Model.
Context {F : Type} `{Scalar F}.

Definition set_data (o : OLS F) (d : Dense F) : OLS F :=
  mkOLS (mkDF d (df_cols (x o)) (df_rows (x o)) (df_labels (x o)))
        (n o) (p o) (response o) (betas o) (residuals o) (fitted o) (hat o).

Definition set_hat (o : OLS F) (h : Dense F) : OLS F :=
  mkOLS (x o) (n o) (p o) (response o) (betas o) (residuals o) (fitted o)
        (Some h).

Definition set_n (o : OLS F) (k : Z) : OLS F :=
  mkOLS (x o) k (p o) (response o) (betas o) (residuals o) (fitted o) (hat o).

Definition store_fit (o : OLS F) (ft : fit F) : OLS F :=
  mkOLS (x o) (n o) (p o) (fit_response ft) (fit_betas ft)
        (fit_residuals ft) (fit_fitted ft) (hat o).

(** [o.Train(y)] as a step on the model. *)
Definition train (fitter : Fitter F) (y : list F) : M (OLS F) (option error) :=
  fun o => let '(res, ft) := Train fitter o y in (res, store_fit o ft).

(** [math.Pow(v, 2)]. *)
Definition sq (v : F) : F := fmul v v.

(** Modelled from the spec: [MeanSquaredError] is not among the sources;
    section 4.1 gives it as [sum(residuals^2) / (n - p)]. *)
Definition MeanSquaredError (o : OLS F) : F :=
  fdiv (fsum (map sq (residuals o))) (of_int (n o - p o)).

Definition mean (l : list F) : F := fdiv (fsum l) (of_int (Z.of_nat (length l))).

(** Modelled from the spec: [RSquared] is not among the sources; section
    4.1 gives it as [1 - SS_res / SS_tot] with [SS_tot] taken on the
    mean-centered response. *)
Definition RSquared (o : OLS F) : F :=
  let m := mean (response o) in
  fsub f1 (fdiv (fsum (map sq (residuals o)))
                (fsum (map (fun v => sq (fsub v m)) (response o)))).

(** Modelled from the spec: [util.Rep] is not among the sources; the
    variance inflation factors use [Rep(0.0, n)] to zero out a column
    (section 4.7), so it is the slice of [n] copies of its argument. *)
Definition Rep (v : F) (k : Z) : outcome (list F) :=
  if (k <? 0)%Z then Panic ErrMakeSlice else Ok (repeat v (Z.to_nat k)).

(** Modelled from the spec: [util.RemoveRow] is not among the sources;
    section 6 describes it as returning a new container without the row
    and leaving the original as it is. *)
Definition RemoveRow (m : Dense F) (i : nat) : outcome (Dense F) :=
  if i <? rows m
  then Ok (mkDense (rows m - 1) (cols m)
             (firstn (i * cols m) (data m) ++ skipn ((i + 1) * cols m) (data m)))
  else Panic ErrIndexOutOfRange.


(* ----------------------------------------------------------------- *)
(** *** [LeveragePoints] *)

(** The body of the two loops that fill [trans]: the assignment of [0.0]
    is not under an [else], so it follows the assignment of [1.0]. *)
Definition trans_cell (p' : nat) (trans : Dense F) (ij : nat * nat)
  : outcome (Dense F) :=
  let '(i, j) := ij in
  (trans <- (if (i =? j) && (i <? p') then Set_ trans i j f1 else Ok trans) ;;
   Set_ trans i j f0)%outcome.

(** The pairs [(i, j)] two nested loops over [0 .. a-1] and [0 .. b-1] visit. *)
Definition grid (a b : nat) : list (nat * nat) :=
  flat_map (fun i => map (fun j => (i, j)) (seq 0 b)) (seq 0 a).

Definition diag_cell (Hm : Dense F) (diag : list F) (ij : nat * nat)
  : outcome (list F) :=
  let '(i, j) := ij in
  if j =? i then (v <- At Hm i j ;; assign diag i v)%outcome else Ok diag.

Definition LeveragePoints (lib : Linalg F) : M (OLS F) (list F) :=
  (o <~ get ;;
   qrf <~ lift (QR lib (df_data (x o))) ;;
   let q := qr_Q qrf in
   let '(n', p') := Dims q in
   trans <~ lift (NewDense n' p' None) ;;
   trans <~ lift (ofold (trans_cell p') (grid n' n') trans) ;;
   Hm <~ lift (Mul None q trans) ;;
   Hm <~ lift (MulTrans None Hm false q true) ;;
   put (set_hat o Hm) ;;;
   let diag := repeat f0 n' in
   lift (ofold (diag_cell Hm) (grid n' n') diag))%monad.

(* ----------------------------------------------------------------- *)
(** *** [PRESS] *)

Definition PRESS_cell (o : OLS F) (h_diag : list F) (press : list F) (i : nat)
  : outcome (list F) :=
  (r <- index (residuals o) i ;;
   h <- index h_diag i ;;
   assign press i (fdiv r (fsub f1 h)))%outcome.

Definition PRESS (lib : Linalg F) : M (OLS F) (list F) :=
  (o <~ get ;;
   press <~ lift (make (n o)) ;;
   h_diag <~ LeveragePoints lib ;;
   o <~ get ;;
   lift (ofold (PRESS_cell o h_diag) (upto (n o)) press))%monad.

(* ----------------------------------------------------------------- *)
(** *** [VarianceCovarianceMatrix] *)





(* ----------------------------------------------------------------- *)
(** *** [VarianceInflationFactors] *)

Definition VIFError : string := "Error Occured calculating VIF".

(** One round of the loop.  [x] is the matrix of the model itself, so
    [x.SetCol] writes into the model. *)
Definition VIF_round (fitter : Fitter F) (vifs : list F) (idx : nat)
  : M (OLS F) (list F) :=
  (o <~ get ;;
   col <~ lift (Col_nil (df_data (x o)) (Z.of_nat idx)) ;;
   zeros <~ lift (Rep f0 (n o)) ;;
   d <~ lift (SetCol (df_data (x o)) (Z.of_nat idx) zeros) ;;
   put (set_data o d) ;;;
   err <~ train fitter col ;;
   match err with
   | Some _ => panic VIFError
   | None =>
       o <~ get ;;
       lift (assign vifs idx (fdiv f1 (fsub f1 (RSquared o))))
   end)%monad.

Definition VarianceInflationFactors (fitter : Fitter F) : M (OLS F) (list F) :=
  (o <~ get ;;
   let orig := DenseCopyOf (df_data (x o)) in
   vifs <~ lift (make (p o)) ;;
   vifs <~ mfold (VIF_round fitter) (upto (p o)) vifs ;;
   o <~ get ;;
   put (set_data o orig) ;;;
   ret vifs)%monad.

End Model.

(* ================================================================= *)
(** ** Goroutines: the fan-out of [CooksDistance], [DFBETA] and [DFFITS]

    The three functions share one shape:
<<
    c := make(chan int, NCPU)
    for i := 0; i < N; i++ { go func(...) { BODY; c <- 1 }(...) }
    for i := 0; i < NCPU; i++ { <-c }
    FINISH; return
>>
    A configuration holds the main goroutine's program point, the loop
    variable [i] of the first loop (one variable for the whole loop, which
    the closures capture), the goroutines started so far, the number of
    values in the channel's buffer and the state the goroutines share.
    One step runs one statement of the main goroutine or of one started
    goroutine; the schedule chooses which.  A send blocks while the
    buffer holds [NCPU] values, a receive while it is empty. *)

Definition NCPU : nat := 4.

Section FanOut.
Variables (S L : Type).

(** One statement of a goroutine's body: it may read the captured loop
    variable (its first argument), and it works on the goroutine's local
    variables and on the shared state. *)
Definition action : Type := nat -> L -> S -> outcome (L * S).

(** A started goroutine: the statements it has yet to run (none left: it
    is at its send [c <- 1]) with its local variables, or finished. *)
Inductive thread : Type :=
| Working (todo : list action) (local : L)
| Finished.

Inductive main_pc : Type :=
| LoopHead
| LoopIncr
| Draining (k : nat)
| Finishing (rest : list (S -> S))
| Returned.

Record config : Type := mkConfig {
  pc : main_pc;
  ivar : nat;
  threads : list thread;
  chan : nat;
  shared : S
}.

Inductive state : Type :=
| Running (c : config)
| Crashed (msg : string).

(** The program: the bound [N] of the first loop, the body of the
    goroutine started in round [i], the initial local variables, and
    the statements between the second loop and the [return]. *)
Record program : Type := mkProgram {
  bound : nat;
  body : nat -> list action;
  local0 : L;
  finish : list (S -> S)
}.

Variable prog : program.

Definition initial (s : S) : config := mkConfig LoopHead 0 [] 0 s.

(** A step of the main goroutine; [None] when it is blocked or has returned. *)
Definition main_step (c : config) : option state :=
  match pc c with
  | LoopHead =>
      if ivar c <? bound prog
      then Some (Running (mkConfig LoopIncr (ivar c)
                   (threads c ++ [Working (body prog (ivar c)) (local0 prog)])
                   (chan c) (shared c)))
      else Some (Running (mkConfig (Draining 0) (ivar c) (threads c)
                   (chan c) (shared c)))
  | LoopIncr =>
      Some (Running (mkConfig LoopHead (Datatypes.S (ivar c)) (threads c)
              (chan c) (shared c)))
  | Draining k =>
      if k <? NCPU
      then match chan c with
           | O => None
           | Datatypes.S ch =>
               Some (Running (mkConfig (Draining (Datatypes.S k)) (ivar c)
                       (threads c) ch (shared c)))
           end
      else Some (Running (mkConfig (Finishing (finish prog)) (ivar c)
                   (threads c) (chan c) (shared c)))
  | Finishing [] =>
      Some (Running (mkConfig Returned (ivar c) (threads c) (chan c) (shared c)))
  | Finishing (g :: rest) =>
      Some (Running (mkConfig (Finishing rest) (ivar c) (threads c) (chan c)
              (g (shared c))))
  | Returned => None
  end.

(** A step of the goroutine started in round [t]; [None] when there is
    none, when it is blocked on its send, or when it has finished. *)
Definition thread_step (c : config) (t : nat) : option state :=
  match nth_error (threads c) t with
  | Some (Working (a :: rest) l) =>
      match a (ivar c) l (shared c) with
      | Ok (l', s') =>
          Some (Running (mkConfig (pc c) (ivar c)
                  (upd (threads c) t (Working rest l')) (chan c) s'))
      | Panic e => Some (Crashed e)
      end
  | Some (Working [] l) =>
      if chan c <? NCPU
      then Some (Running (mkConfig (pc c) (ivar c)
                   (upd (threads c) t Finished)
                   (Datatypes.S (chan c)) (shared c)))
      else None
  | Some Finished => None
  | None => None
  end.

(** Whom the scheduler runs next. *)
Inductive choice : Type :=
| RunMain
| RunThread (t : nat).

Definition step (c : config) (ch : choice) : option state :=
  match ch with
  | RunMain => main_step c
  | RunThread t => thread_step c t
  end.

(** The state a schedule leads to; [None] when the schedule asks for a
    step that cannot be taken.  A crash ends the program. *)
Fixpoint run (sched : list choice) (st : state) : option state :=
  match sched with
  | [] => Some st
  | ch :: rest =>
      match st with
      | Crashed _ => None
      | Running c =>
          match step c ch with
          | Some st' => run rest st'
          | None => None
          end
      end
  end.

Definition reachable (s0 : S) (st : state) : Prop :=
  exists sched, run sched (Running (initial s0)) = Some st.

(** The call has returned, with the shared state [s]. *)
Definition returned (st : state) (s : S) : Prop :=
  exists c, st = Running c /\ pc c = Returned /\ shared c = s.

End FanOut.

Arguments Working {S L} todo local.
Arguments Finished {S L}.
Arguments mkConfig {S L} pc ivar threads chan shared.
Arguments mkProgram {S L} bound body local0 finish.
Arguments Running {S L} c.
Arguments Crashed {S L} msg.
Arguments LoopHead {S}.
Arguments LoopIncr {S}.
Arguments Draining {S} k.
Arguments Finishing {S} rest.
Arguments Returned {S}.

Section Influence.
Context {F : Type} `{Scalar F}.

(* ----------------------------------------------------------------- *)
(** *** [CooksDistance] *)

(** The goroutine of round [idx].  Its local variables are [left] and
    [right]; the shared state is the slice [dists].  The closure reads the
    loop variable [i], not its parameter [idx], in the first two
    statements. *)
Definition Cooks_body (o : OLS F) (h : list F) (mse : F) (idx : nat)
  : list (action (list F) (F * F)) :=
  [ (fun i lr dists =>
       r <- index (residuals o) i ;;
       Ok ((fdiv (sq r) (fmul (of_int (p o)) mse), snd lr), dists))%outcome ;
    (fun i lr dists =>
       hi <- index h i ;;
       Ok ((fst lr, fdiv hi (sq (fsub f1 hi))), dists))%outcome ;
    (fun i lr dists =>
       dists <- assign dists idx (fmul (fst lr) (snd lr)) ;;
       Ok (lr, dists))%outcome ].

Definition Cooks_program (o : OLS F) (h : list F) (mse : F)
  : program (list F) (F * F) :=
  mkProgram (Z.to_nat (n o)) (Cooks_body o h mse) (f0, f0) [].

(** The statements before the first loop: the configuration the fan-out
    starts from, with the program it runs. *)
Definition CooksDistance_start (lib : Linalg F)
  : M (OLS F) (program (list F) (F * F) * list F) :=
  (h <~ LeveragePoints lib ;;
   o <~ get ;;
   let mse := MeanSquaredError o in
   dists <~ lift (make (n o)) ;;
   ret (Cooks_program o h mse, dists))%monad.

(** [CooksDistance] returns [dists] from the model [o]. *)
Definition CooksDistance_returns (lib : Linalg F) (o : OLS F) (dists : list F)
  : Prop :=
  exists prog d0 o' st,
    CooksDistance_start lib o = (Ok (prog, d0), o') /\
    reachable prog d0 st /\ returned st dists.

(* ----------------------------------------------------------------- *)
(** *** [DFBETA] *)

(** The goroutine takes no argument and writes [dfs[i]] for the captured
    loop variable.  The shared state is the model and the slice [dfs]. *)
Definition DFBETA_body (idx : nat) : list (action (OLS F * list F) unit) :=
  [ (fun i u s =>
       dfs <- assign (snd s) i f0 ;;
       Ok (u, (fst s, dfs)))%outcome ].

Definition DFBETA_program (o : OLS F) : program (OLS F * list F) unit :=
  mkProgram (Z.to_nat (n o)) DFBETA_body tt [].

Definition DFBETA_start (o : OLS F)
  : outcome (program (OLS F * list F) unit * (OLS F * list F)) :=
  (dfs <- make (n o) ;;
   Ok (DFBETA_program o, (o, dfs)))%outcome.

(* ----------------------------------------------------------------- *)
(** *** [DFFITS] *)

(** The goroutine of round [i] (the closure's parameter shadows the loop
    variable).  Its local variable is [loo_fitted]; the shared state is the
    model and the slice [dffits].  [fitted] and [leverage] are the values
    read before the loop. *)
Definition DFFITS_body (fitter : Fitter F) (fitted0 leverage : list F) (i : nat)
  : list (action (OLS F * list F) (list F)) :=
  [ (fun _ loo s =>
       d <- RemoveRow (df_data (x (fst s))) i ;;
       Ok (loo, (set_data (fst s) d, snd s)))%outcome ;
    (fun _ loo s =>
       let '(res, o') := train fitter (residuals (fst s)) (fst s) in
       err <- res ;;
       match err with
       | Some e => Panic e
       | None => Ok (loo, (o', snd s))
       end)%outcome ;
    (fun _ loo s => Ok (fitted (fst s), s)) ;
    (fun _ loo s =>
       a <- index fitted0 i ;;
       b <- index loo i ;;
       dffits <- assign (snd s) i (fsub a b) ;;
       Ok (loo, (fst s, dffits)))%outcome ;
    (fun _ loo s =>
       v <- index (snd s) i ;;
       l <- index leverage i ;;
       dffits <- assign (snd s) i
                   (fdiv v (fsqrt (fmul (MeanSquaredError (fst s)) l))) ;;
       Ok (loo, (fst s, dffits)))%outcome ].

Definition DFFITS_program (fitter : Fitter F) (orig : Dense F)
    (fitted0 leverage dffits : list F) : program (OLS F * list F) (list F) :=
  mkProgram (length dffits) (DFFITS_body fitter fitted0 leverage) []
    [ (fun s => (set_data (fst s) orig, snd s)) ;
      (fun s => (set_n (fst s) (n (fst s) + 1), snd s)) ].

(** The statements before the first loop. *)
Definition DFFITS_start (lib : Linalg F) (fitter : Fitter F)
  : M (OLS F) (program (OLS F * list F) (list F) * list F) :=
  (o <~ get ;;
   let orig := df_data (x o) in
   let fitted0 := fitted o in
   leverage <~ LeveragePoints lib ;;
   o <~ get ;;
   dffits <~ lift (make (n o)) ;;
   put (set_n o (n o - 1)) ;;;
   ret (DFFITS_program fitter orig fitted0 leverage dffits, dffits))%monad.

End Influence.

(* ================================================================= *)
(** ** forward_stagewise.go *)

(** [type ForwardStage struct]. *)
Record ForwardStage (F : Type) : Type := mkFS {
  fs_x : DataFrame F;
  epsilon : F;
  delta : F;
  fs_y : list F;
  fs_betas : list F;
  fs_p : Z;
  firstRun : bool
}.

Arguments mkFS {F} fs_x epsilon delta fs_y fs_betas fs_p firstRun.

(** The package's numeric helpers that [forward_stagewise.go] calls and
    that are not among the sources.  They work on slices and return
    values; what they compute is left open. *)
Record Helpers (F : Type) : Type := mkHelpers {
  standardize : list F -> list F;
  normalize : list F -> list F;
  subtractMean : list F -> list F;
  cor : list F -> list F -> F;
  max : list F -> F;
  sign : F -> F;
  sum : list F -> F;
  prod : list F -> list F -> list F;
  diff : list F -> list F -> list F;
  multSlice : list F -> F -> list F
}.

Module ForwardStagewise.

Section Stagewise.
Context {F : Type} `{Scalar F}.
Variable hp : Helpers F.

(** Modelled from the spec: [rep] is not among the sources; section 3 has
    the coefficients start as a vector of zeros of length [p], which is
    what [rep(0.0, p)] builds. *)
Definition rep (v : F) (k : nat) : list F := repeat v k.

(** The loop shared by [Standardize] and [Normalize]: the buffer [col] is
    allocated once and refilled for every column. *)
Definition rescale_col (g : list F -> list F) (st : list F * Dense F) (i : nat)
  : outcome (list F * Dense F) :=
  let '(col, d) := st in
  (col <- Col_into col d (Z.of_nat i) ;;
   d <- SetCol d (Z.of_nat i) (g col) ;;
   Ok (col, d))%outcome.

Definition rescale (g : list F -> list F) : M (DataFrame F) unit :=
  (df <~ get ;;
   let d := df_data df in
   let '(n', p') := Dims d in
   let col := repeat f0 n' in
   st <~ lift (ofold (rescale_col g) (seq 0 p') (col, d)) ;;
   put (mkDF (snd st) (df_cols df) (df_rows df) (df_labels df)))%monad.

(** [func (df *DataFrame) Standardize()]. *)
Definition Standardize : M (DataFrame F) unit := rescale (standardize hp).

(** [func (df *DataFrame) Normalize()]. *)
Definition Normalize : M (DataFrame F) unit := rescale (normalize hp).

(** [sort.SearchFloat64s(a, v)]: the binary search of [sort.Search] with
    the test [a[h] >= v]; the interval halves in every round, so [len(a)]
    rounds are enough. *)
Fixpoint search_loop (fuel : nat) (a : list F) (v : F) (i j : nat) : nat :=
  match fuel with
  | O => i
  | Datatypes.S fuel' =>
      if i <? j
      then let h := (i + j) / 2 in
           if fleb v (nth h a f0) then search_loop fuel' a v i h
           else search_loop fuel' a v (h + 1) j
      else i
  end.

Definition SearchFloat64s (a : list F) (v : F) : nat :=
  search_loop (Datatypes.S (length a)) a v 0 (length a).

(** The loop that fills [cors] in [Train] and in [isCorrelation]:
    [cors] is made with length 0 (and capacity [cols]), and the loop
    assigns to [cors[i]]. *)
Definition cors_cell (d : Dense F) (y : list F) (cors : list F) (i : nat)
  : outcome (list F) :=
  (c <- Col_nil d (Z.of_nat i) ;;
   assign cors i (cor hp c y))%outcome.

Definition correlations (f : ForwardStage F) (y : list F) : outcome (list F) :=
  let cors : list F := [] in
  ofold (cors_cell (df_data (fs_x f)) y) (seq 0 (df_cols (fs_x f))) cors.

Definition set_firstRun (f : ForwardStage F) (b : bool) : ForwardStage F :=
  mkFS (fs_x f) (epsilon f) (delta f) (fs_y f) (fs_betas f) (fs_p f) b.

Definition set_betas (f : ForwardStage F) (b : list F) : ForwardStage F :=
  mkFS (fs_x f) (epsilon f) (delta f) (fs_y f) b (fs_p f) (firstRun f).

Definition set_x (f : ForwardStage F) (df : DataFrame F) : ForwardStage F :=
  mkFS df (epsilon f) (delta f) (fs_y f) (fs_betas f) (fs_p f) (firstRun f).

(** [func (f *ForwardStage) isCorrelation(y []float64) bool]. *)
Definition isCorrelation (y : list F) : M (ForwardStage F) bool :=
  (f <~ get ;;
   if firstRun f then (put (set_firstRun f false) ;;; ret true)
   else
     cors <~ lift (correlations f y) ;;
     if fltb (max hp cors) (delta f) then ret false else ret true)%monad.

(** The local variables of [Train] that the loop updates. *)
Record locals : Type := mkLocals {
  loc_r : list F;
  loc_x : Dense F
}.

(** The body of the loop of [Train]; [y] is the parameter of [Train]. *)
Definition Train_round (y : list F) (l : locals) : M (ForwardStage F) locals :=
  (f <~ get ;;
   cors <~ lift (correlations f y) ;;
   let maxCor := max hp cors in
   let maxIdx := Z.of_nat (SearchFloat64s cors maxCor) in
   c <~ lift (Col_nil (df_data (fs_x f)) maxIdx) ;;
   x' <~ lift (SetCol (loc_x l) maxIdx c) ;;
   xc <~ lift (Col_nil x' maxIdx) ;;
   let delta' := fmul (epsilon f) (sign hp (sum hp (prod hp xc (loc_r l)))) in
   b <~ lift (index (fs_betas f) (Z.to_nat maxIdx)) ;;
   betas' <~ lift (assign (fs_betas f) (Z.to_nat maxIdx) (fadd b delta')) ;;
   put (set_betas f betas') ;;;
   xc <~ lift (Col_nil x' maxIdx) ;;
   ret (mkLocals (diff hp (loc_r l) (multSlice hp xc delta')) x'))%monad.

(** How a run of the loop ends: the guard answered [false] and [Train]
    returned its error value (always [nil]), or the rounds allowed were
    used up with the guard still answering [true]. *)
Inductive ending : Type :=
| Returns (err : option error)
| StillRunning.

(** [for f.isCorrelation(r) { ... }; return nil], for at most [fuel] rounds. *)
Fixpoint Train_loop (fuel : nat) (y : list F) (l : locals)
  : M (ForwardStage F) ending :=
  match fuel with
  | O => ret StillRunning
  | Datatypes.S fuel' =>
      (go <~ isCorrelation (loc_r l) ;;
       if go then (l' <~ Train_round y l ;; Train_loop fuel' y l')
       else ret (Returns None))%monad
  end.

(** A method of the frame run on the field [x]. *)
Definition on_x {A} (m : M (DataFrame F) A) : M (ForwardStage F) A :=
  fun f => let '(res, df) := m (fs_x f) in (res, set_x f df).

(** The statements of [Train] before the loop. *)
Definition Train_setup (y : list F) : M (ForwardStage F) locals :=
  (on_x Standardize ;;;
   f <~ get ;;
   let '(n', p') := (df_rows (fs_x f), df_cols (fs_x f)) in
   put (set_betas f (rep f0 p')) ;;;
   let r := subtractMean hp y in
   x' <~ lift (NewDense n' p' (Some (rep f0 (n' * p')))) ;;
   f <~ get ;;
   put (set_firstRun f true) ;;;
   ret (mkLocals r x'))%monad.

(** [func (f *ForwardStage) Train(y []float64) error]. *)
Definition Train (fuel : nat) (y : list F) : M (ForwardStage F) ending :=
  (l <~ Train_setup y ;; Train_loop fuel y l)%monad.

End Stagewise.

End ForwardStagewise.

(* ================================================================= *)
(** ** A fitted model to run the code on

    Three observations of two predictors.  The design [X] factors as
    [Q * R] with orthonormal columns in [Q] (a 3-4-5 triangle), the
    response is [X * (1, 1)] plus the residual [(4, -3, 0)], which is
    orthogonal to both columns. *)

Section Example.
Context {F : Type} `{Scalar F}.

Definition num (z : Z) : F := of_int z.
Definition frac (a b : Z) : F := fdiv (of_int a) (of_int b).

Definition X345 : Dense F := mkDense 3 2 [num 3; num 3; num 4; num 4; num 0; num 1].
Definition Q345 : Dense F :=
  mkDense 3 2 [frac 3 5; num 0; frac 4 5; num 0; num 0; num 1].
Definition R345 : Dense F := mkDense 2 2 [num 5; num 5; num 0; num 1].
Definition Rinv345 : Dense F := mkDense 2 2 [frac 1 5; num (-1); num 0; num 1].

(** A linear-algebra kernel that gives the same answers for every matrix:
    the answers of the library on the design of the example. *)
Definition answers (qrf : outcome (QRFactor F)) (inv : option (Dense F))
  : Linalg F :=
  mkLinalg (fun _ => qrf) (fun _ => inv).

Definition lib345 : Linalg F := answers (Ok (mkQR Q345 R345)) (Some Rinv345).

Definition o345 : OLS F :=
  mkOLS (mkDF X345 2 3 ["a"%string; "b"%string]) 3 2
        [num 10; num 5; num 1] [num 1; num 1]
        [num 4; num (-3); num 0] [num 6; num 8; num 1] None.




(** A model with as many observations as predictors: the design is the
    identity, its QR factors are identities, the fit is exact. *)
Definition X22 : Dense F := mkDense 2 2 [num 1; num 0; num 0; num 1].

Definition lib22 : Linalg F := answers (Ok (mkQR X22 X22)) (Some X22).

Definition o22 : OLS F :=
  mkOLS (mkDF X22 2 2 ["a"%string; "b"%string]) 2 2
        [num 1; num 2] [num 1; num 2] [num 0; num 0] [num 1; num 2] None.

(** Fits to run the code with; [OLS.Train] itself is not among the sources. *)

Definition matvec (m : Dense F) (b : list F) : list F :=
  map (fun i => fsum (map (fun k => fmul (entry m i k) (nth k b f0))
                        (seq 0 (cols m))))
      (seq 0 (rows m)).

Definition vsub (a b : list F) : list F :=
  map (fun uv => fsub (fst uv) (snd uv)) (combine a b).

Definition current_fit (o : OLS F) : fit F :=
  mkFit (response o) (betas o) (residuals o) (fitted o).

(** The fitted values and residuals of the coefficients the model holds,
    for the response [y]. *)
Definition refit (o : OLS F) (y : list F) : fit F :=
  let fv := matvec (df_data (x o)) (betas o) in
  mkFit y (betas o) (vsub y fv) fv.

Definition is_zero (v : F) : bool := fleb v f0 && fleb f0 v.

Definition has_zero_column (m : Dense F) : bool :=
  existsb (fun j => forallb is_zero (column m j)) (seq 0 (cols m)).

Definition RankDeficiencyError : error := "RankDeficiencyError"%string.

(** Modelled from the spec: section 4.1 has the fit fail with
    [DimensionError] when the response does not have [n] values and with
    [RankDeficiencyError] when the design is rank deficient.  This fit
    makes the first check, finds the rank deficiency of a design with an
    all-zero column, and leaves the model as it is when it fails; the
    solve for the coefficients is not modelled. *)
Definition checking_fitter : Fitter F :=
  mkFitter (fun o y =>
    if negb (Z.of_nat (length y) =? n o)%Z
    then (Ok (Some DimensionError), current_fit o)
    else if has_zero_column (df_data (x o))
    then (Ok (Some RankDeficiencyError), current_fit o)
    else (Ok None, refit o y)).


End Example.

(* ================================================================= *)
(** ** Helpers and an estimator to run the forward-stagewise code on

    The helpers of [forward_stagewise.go] are not among the sources; these
    are the usual readings of their names. *)

Section StagewiseExample.
Context {F : Type} `{Scalar F}.

Definition centered (l : list F) : list F := map (fun v => fsub v (mean l)) l.

Definition times (a b : list F) : list F :=
  map (fun uv => fmul (fst uv) (snd uv)) (combine a b).

Definition greatest (l : list F) : F :=
  match l with
  | [] => f0
  | v :: t => fold_left (fun m w => if fltb m w then w else m) t v
  end.

Definition least (l : list F) : F :=
  match l with
  | [] => f0
  | v :: t => fold_left (fun m w => if fltb w m then w else m) t v
  end.

Definition deviation (l : list F) : F :=
  fsqrt (fdiv (fsum (map sq (centered l)))
              (of_int (Z.of_nat (length l) - 1))).

Definition pearson (a b : list F) : F :=
  fdiv (fsum (times (centered a) (centered b)))
       (fsqrt (fmul (fsum (map sq (centered a))) (fsum (map sq (centered b))))).

Definition signum (v : F) : F :=
  if fltb v f0 then fsub f0 f1 else if fltb f0 v then f1 else f0.

Definition example_helpers : Helpers F := {|
  standardize := fun l => map (fun v => fdiv v (deviation l)) (centered l);
  normalize := fun l =>
    map (fun v => fdiv (fsub v (least l)) (fsub (greatest l) (least l))) l;
  subtractMean := centered;
  cor := pearson;
  max := greatest;
  sign := signum;
  sum := fsum;
  prod := times;
  diff := vsub;
  multSlice := fun l c => map (fun v => fmul v c) l
|}.

(** Five observations of one predictor, fitted through the origin:
    [x = (1, .., 5)], coefficient 1, residuals [(2, -1, 0, 0, 0)].
    [h5] holds the leverages [x_i^2 / 55] of this design. *)
Definition o5 : OLS F :=
  mkOLS (mkDF (mkDense 5 1 [num 1; num 2; num 3; num 4; num 5]) 1 5
           ["a"%string]) 5 1
        [num 3; num 1; num 3; num 4; num 5] [num 1]
        [num 2; num (-1); num 0; num 0; num 0]
        [num 1; num 2; num 3; num 4; num 5] None.

Definition h5 : list F := [frac 1 55; frac 4 55; frac 9 55; frac 16 55; frac 25 55].




(** The estimator over the design of the example, with step [1/100] and
    threshold [1/100]. *)
Definition fs345 : ForwardStage F :=
  mkFS (mkDF X345 2 3 ["a"%string; "b"%string]) (frac 1 100) (frac 1 100)
       [] [] 2 false.

Definition y345 : list F := [num 10; num 5; num 1].


End StagewiseExample.

(* ================================================================= *)
(** ** Vocabulary of the properties *)

Section FanOutVocabulary.
Variables (S L : Type) (prog : program S L).

Fixpoint finished_count (ts : list (thread S L)) : nat :=
  match ts with
  | [] => 0
  | Finished :: rest => Datatypes.S (finished_count rest)
  | Working _ _ :: rest => finished_count rest
  end.

(** The completions the main goroutine has received so far. *)
Definition received (pc : main_pc S) : nat :=
  match pc with
  | LoopHead | LoopIncr => 0
  | Draining k => k
  | Finishing _ | Returned => NCPU
  end.

(** Every completion sent is in the channel or was received, and no more
    goroutines run than the first loop has rounds. *)
Definition balanced (c : config S L) : Prop :=
  finished_count (threads c) = chan c + received (pc c) /\
  length (threads c) <= bound prog /\
  match pc c with
  | LoopHead => length (threads c) = ivar c
  | LoopIncr => length (threads c) = Datatypes.S (ivar c)
  | Draining k => k <= NCPU
  | _ => True
  end.

(** What every statement of the program keeps true of the shared state. *)
Section Keeping.
Variable P : S -> Prop.

Definition keeps (a : action S L) : Prop :=
  forall i l s l' s', a i l s = Ok (l', s') -> P s -> P s'.

Definition thread_keeps (th : thread S L) : Prop :=
  match th with
  | Working todo _ => Forall keeps todo
  | Finished => True
  end.

Definition config_keeps (c : config S L) : Prop :=
  P (shared c) /\ Forall thread_keeps (threads c) /\
  match pc c with
  | Finishing rest => Forall (fun g => forall s, P s -> P (g s)) rest
  | _ => True
  end.

End Keeping.

(** The goroutines of the first [k] rounds. *)
Definition started (k : nat) : list (thread S L) :=
  map (fun i => Working (body prog i) (local0 prog)) (seq 0 k).

End FanOutVocabulary.



Section ModelVocabulary.
Context {F : Type} `{Scalar F}.


End ModelVocabulary.

(** Finite sums and products of matrices over the real numbers. *)
Section ExactVocabulary.
Local Open Scope R_scope.

Fixpoint bigsum (k : nat) (f : nat -> R) : R :=
  match k with
  | O => 0
  | Datatypes.S k' => bigsum k' f + f k'
  end.

Definition mm (k : nat) (A B : nat -> nat -> R) (i j : nat) : R :=
  bigsum k (fun x => A i x * B x j).


Definition Id (i j : nat) : R := if (i =? j)%nat then 1 else 0.


End ExactVocabulary.




(* ================================================================= *)
(** ** More of the package

    The rest of [df.go] ([NewDF], [Apply], [applyCols], [applyRows]) and
    [StudentizedResiduals]. *)

Definition Wtf : string := "wtf".

Section MoreFrames.
Context {F : Type} `{Scalar F}.

(** [m.Row(nil, i)]: a fresh slice holding row [i]. *)
Definition row_ok (m : Dense F) (i : Z) : bool :=
  (0 <=? i)%Z && (i <? Z.of_nat (rows m))%Z.

Definition row (m : Dense F) (i : nat) : list F :=
  map (fun c => entry m i c) (seq 0 (cols m)).

Definition Row_nil (m : Dense F) (i : Z) : outcome (list F) :=
  if row_ok m i then Ok (row m (Z.to_nat i)) else Panic ErrIndexOutOfRange.

(** [func NewDF(data [][]float64) *DataFrame].  The slice [x] is made with
    [cols*rows] zeros and every [d] is then appended to it. *)
Definition NewDF (values : list (list F)) : outcome (DataFrame F) :=
  let cols := length values in
  (d0 <- index values 0 ;;
   let rows := length d0 in
   let x := fold_left (fun x d => x ++ d) values (repeat f0 (cols * rows)) in
   df <- NewDense rows cols (Some x) ;;
   Ok (mkDF df cols rows []))%outcome.

(** One round of the loop of [applyCols]; [i] is the position in [cols]. *)
Definition applyCols_cell (f : list F -> F) (df : DataFrame F)
    (output : list F) (ic : nat * Z) : outcome (list F) :=
  let '(i, col) := ic in
  if (Z.of_nat (df_cols df) <? col)%Z then Panic Wtf
  else (xs <- Col_nil (df_data df) col ;; assign output i (f xs))%outcome.

(** [func (df *DataFrame) applyCols(f, cols)]. *)
Definition applyCols (f : list F -> F) (cols : list Z) (df : DataFrame F)
  : outcome (list F) :=
  if df_cols df <? length cols then Panic Wtf
  else ofold (applyCols_cell f df) (combine (seq 0 (length cols)) cols)
             (repeat f0 (length cols)).

Definition applyRows_cell (f : list F -> F) (df : DataFrame F)
    (output : list F) (ir : nat * Z) : outcome (list F) :=
  let '(i, r) := ir in
  if (Z.of_nat (df_rows df) <? r)%Z then Panic Wtf
  else (xs <- Row_nil (df_data df) r ;; assign output i (f xs))%outcome.

(** [func (df *DataFrame) applyRows(f, rows)]. *)
Definition applyRows (f : list F -> F) (rws : list Z) (df : DataFrame F)
  : outcome (list F) :=
  if df_rows df <? length rws then Panic Wtf
  else ofold (applyRows_cell f df) (combine (seq 0 (length rws)) rws)
             (repeat f0 (length rws)).

(** [func (df *DataFrame) Apply(f, margin, idxs...)]. *)
Definition Apply (f : list F -> F) (margin : bool) (idxs : list Z)
    (df : DataFrame F) : outcome (list F) :=
  if margin then applyCols f idxs df else applyRows f idxs df.

(** One round of the loop of [StudentizedResiduals]. *)
Definition Studentized_cell (o : OLS F) (sigma : F) (h : list F)
    (t : list F) (i : nat) : outcome (list F) :=
  (r <- index (residuals o) i ;;
   hi <- index h i ;;
   assign t i (fdiv r (fmul sigma (fsqrt (fsub f1 hi)))))%outcome.

(** [func (o *OLS) StudentizedResiduals() []float64].  [util.Sd] is not
    among the sources: it is the argument [Sd]. *)
Definition StudentizedResiduals (Sd : list F -> F) (lib : Linalg F)
  : M (OLS F) (list F) :=
  (o <~ get ;;
   t <~ lift (make (n o)) ;;
   let sigma := Sd (residuals o) in
   h <~ LeveragePoints lib ;;
   o <~ get ;;
   lift (ofold (Studentized_cell o sigma h) (upto (n o)) t))%monad.

(** The design with its first [k] columns set to zero. *)
Definition zero_columns (k : nat) (m : Dense F) : Dense F :=
  tabulate (rows m) (cols m) (fun r c => if c <? k then f0 else entry m r c).

End MoreFrames.

(** The frame of [TestApplyDF]. *)
Definition latin_square : DataFrame float :=
  mkDF (mkDense 3 3 [num 1; num 2; num 3;
                     num 2; num 3; num 1;
                     num 3; num 1; num 2]) 3 3 ["a"; "b"; "c"]%string.


(** [d'] is [d] with every column overwritten by what [g] makes of it
    (as far as the values [g] returns reach). *)
Definition rescaled_by {F} `{Scalar F} (g : list F -> list F)
    (d d' : Dense F) : Prop :=
  rows d' = rows d /\ cols d' = cols d /\ wf d' /\
  forall r c, r < rows d -> c < cols d ->
    entry d' r c =
    let col := g (column d c) in
    if r <? length col then nth r col f0 else entry d r c.

(** A schedule of [DFBETA] on five observations: every goroutine runs as
    soon as it is started (the fifth finds the channel full and stays at
    its send), and the main goroutine then receives four completions and
    returns. *)
Definition eager_DFBETA : list choice :=
  [RunMain; RunThread 0; RunThread 0; RunMain;
   RunMain; RunThread 1; RunThread 1; RunMain;
   RunMain; RunThread 2; RunThread 2; RunMain;
   RunMain; RunThread 3; RunThread 3; RunMain;
   RunMain; RunThread 4; RunMain;
   RunMain;
   RunMain; RunMain; RunMain; RunMain; RunMain; RunMain].

(* ================================================================= *)
(** * Properties *)

(** ** Slices *)

Section SliceFacts.
Context {A : Type}.

Lemma upd_length (l : list A) i v : length (upd l i v) = length l.
Proof.
  revert i; induction l as [|h t IH]; intros [|i]; simpl; auto.
Qed.

Lemma nth_upd (l : list A) i j v d :
  nth j (upd l i v) d =
  if (j =? i) && (i <? length l) then v else nth j l d.
Proof.
  revert i j; induction l as [|h t IH]; intros i j; simpl.
  - rewrite andb_false_r. destruct i; reflexivity.
  - destruct i as [|i]; destruct j as [|j]; simpl; auto.
Qed.

End SliceFacts.

(** ** [mat64.Dense]: what [Col] and [SetCol] read and write *)

Section Mat64Facts.
Context {F : Type} `{Scalar F}.

Lemma flat_index_inj (c r x r' x' : nat) :
  x < c -> x' < c -> r * c + x = r' * c + x' -> r = r' /\ x = x'.
Proof.
  intros Hx Hx' E.
  assert (r = r').
  { destruct (Nat.lt_trichotomy r r') as [L|[L|L]]; [|exact L|].
    - assert (S r * c <= r' * c) by (apply Nat.mul_le_mono_r; lia).
      simpl in *; lia.
    - assert (S r' * c <= r * c) by (apply Nat.mul_le_mono_r; lia).
      simpl in *; lia. }
  subst r'. split; [reflexivity | lia].
Qed.

Lemma setcol_data_S (d : list F) c j k src :
  setcol_data d c j (S k) src =
  upd (setcol_data d c j k src) (k * c + j) (nth k src f0).
Proof.
  unfold setcol_data. rewrite seq_S, fold_left_app. reflexivity.
Qed.

Lemma setcol_data_length (d : list F) c j k src :
  length (setcol_data d c j k src) = length d.
Proof.
  induction k as [|k IH]; [reflexivity|].
  rewrite setcol_data_S, upd_length. exact IH.
Qed.

Lemma nth_setcol_data (d : list F) c j k src r x :
  j < c -> x < c -> k * c <= length d ->
  nth (r * c + x) (setcol_data d c j k src) f0 =
  if (x =? j) && (r <? k) then nth r src f0 else nth (r * c + x) d f0.
Proof.
  intros Hj Hx. induction k as [|k IH]; intros Hlen.
  - simpl. rewrite andb_false_r. reflexivity.
  - rewrite setcol_data_S, nth_upd, setcol_data_length.
    assert (Hin : (k * c + j <? length d) = true)
      by (apply Nat.ltb_lt; simpl in Hlen; lia).
    rewrite Hin, andb_true_r, IH by (simpl in Hlen; lia).
    destruct (Nat.eqb_spec (r * c + x) (k * c + j)) as [E|E].
    + apply flat_index_inj in E; auto. destruct E as [-> ->].
      rewrite Nat.eqb_refl. simpl.
      replace (k <? S k) with true by (symmetry; apply Nat.ltb_lt; lia).
      reflexivity.
    + destruct (Nat.eqb_spec x j) as [->|Hxj]; simpl; auto.
      assert (r <> k) by (intros ->; apply E; reflexivity).
      destruct (Nat.ltb_spec r k), (Nat.ltb_spec r (S k)); auto; lia.
Qed.

Lemma col_ok_spec (m : Dense F) j :
  col_ok m j = true <-> (0 <= j < Z.of_nat (cols m))%Z.
Proof.
  unfold col_ok. rewrite andb_true_iff, Z.leb_le, Z.ltb_lt. tauto.
Qed.

Lemma column_length (m : Dense F) j : length (column m j) = rows m.
Proof. unfold column. rewrite length_map, length_seq. reflexivity. Qed.

Lemma nth_column (m : Dense F) j r d :
  r < rows m -> nth r (column m j) d = entry m r j.
Proof.
  intros Hr. unfold column.
  rewrite nth_indep with (d' := entry m 0 j)
    by (rewrite length_map, length_seq; exact Hr).
  rewrite (map_nth (fun r => entry m r j)), seq_nth by exact Hr.
  reflexivity.
Qed.

(** A buffer as long as the matrix has rows receives the whole column. *)
Lemma Col_into_full (m : Dense F) (buf : list F) j :
  length buf = rows m -> col_ok m j = true ->
  Col_into buf m j = Ok (column m (Z.to_nat j)).
Proof.
  intros Hlen Hj. unfold Col_into. rewrite Hj, Hlen, Nat.min_id.
  rewrite <- (column_length m (Z.to_nat j)) at 1.
  rewrite firstn_all, skipn_all2 by lia.
  rewrite app_nil_r. reflexivity.
Qed.

Lemma SetCol_entry (m m' : Dense F) j src r c :
  wf m -> SetCol m j src = Ok m' -> r < rows m -> c < cols m ->
  length src = rows m ->
  entry m' r c = if c =? Z.to_nat j then nth r src f0 else entry m r c.
Proof.
  intros Hwf E Hr Hc Hsrc. unfold SetCol in E.
  destruct (col_ok m j) eqn:Hj; [|discriminate].
  injection E as <-. apply col_ok_spec in Hj.
  unfold entry; simpl. rewrite Hsrc, Nat.min_id.
  rewrite nth_setcol_data by (try lia; rewrite Hwf; lia).
  replace (r <? rows m) with true by (symmetry; apply Nat.ltb_lt; lia).
  rewrite andb_true_r. reflexivity.
Qed.

Lemma SetCol_shape (m m' : Dense F) j src :
  SetCol m j src = Ok m' ->
  rows m' = rows m /\ cols m' = cols m /\ (wf m -> wf m').
Proof.
  unfold SetCol. destruct (col_ok m j); [|discriminate].
  intros E; injection E as <-. simpl. repeat split.
  unfold wf; simpl. rewrite setcol_data_length. trivial.
Qed.

End Mat64Facts.

(** ** [Transform] *)

Section TransformFacts.
Context {F : Type} `{Scalar F}.

Lemma applied_all (ncols : nat) (cols : list Z) :
  (forall j, In j cols -> (0 <= j < Z.of_nat ncols)%Z) ->
  applied ncols cols = cols.
Proof.
  induction cols as [|j rest IH]; intros Hall; simpl; [reflexivity|].
  assert (Hj : (0 <= j < Z.of_nat ncols)%Z) by (apply Hall; left; reflexivity).
  replace ((0 <=? j)%Z && (j <? Z.of_nat ncols)%Z) with true.
  - rewrite IH; [reflexivity|]. intros k Hk. apply Hall. right. exact Hk.
  - symmetry. apply andb_true_iff. rewrite Z.leb_le, Z.ltb_lt. exact Hj.
Qed.

Lemma applied_incl (ncols : nat) (cols : list Z) j :
  In j (applied ncols cols) -> In j cols.
Proof.
  induction cols as [|k rest IH]; simpl; [tauto|].
  destruct ((0 <=? k)%Z && (k <? Z.of_nat ncols)%Z); simpl; [|tauto].
  intros [E|E]; auto.
Qed.

Lemma Transform_col_panics (f : F -> F) col (df : DataFrame F) :
  col_ok (df_data df) col = false ->
  Transform_col f col df = (Panic ErrIndexOutOfRange, df).
Proof.
  intros Hj. unfold Transform_col, bind, get, lift, Col_into.
  rewrite Hj. reflexivity.
Qed.

Lemma Transform_col_runs (f : F -> F) col (df : DataFrame F) :
  wf_df df -> col_ok (df_data df) col = true ->
  exists d',
    Transform_col f col df
      = (Ok tt, mkDF d' (df_cols df) (df_rows df) (df_labels df)) /\
    rows d' = rows (df_data df) /\ cols d' = cols (df_data df) /\ wf d' /\
    forall r c, r < rows (df_data df) -> c < cols (df_data df) ->
      entry d' r c =
      if c =? Z.to_nat col then f (entry (df_data df) r c)
      else entry (df_data df) r c.
Proof.
  intros (Hwf & Hrows & Hcols) Hj.
  unfold Transform_col, bind, get, lift, put.
  rewrite Col_into_full by (rewrite ?repeat_length; auto).
  destruct (SetCol (df_data df) col (fc f (column (df_data df) (Z.to_nat col))))
    as [d'|e] eqn:E.
  2:{ unfold SetCol in E. rewrite Hj in E. discriminate. }
  exists d'. destruct (SetCol_shape _ _ _ E) as (Hr & Hc & Hw).
  repeat split; auto.
  intros r c Hr' Hc'.
  rewrite (@SetCol_entry _ _ (df_data df) d' col _ r c Hwf E Hr' Hc').
  - destruct (Nat.eqb_spec c (Z.to_nat col)) as [->|]; [|reflexivity].
    unfold fc.
    rewrite nth_indep with (d' := f f0)
      by (rewrite length_map, column_length; exact Hr').
    rewrite map_nth, nth_column by exact Hr'. reflexivity.
  - unfold fc. rewrite length_map, column_length. reflexivity.
Qed.

Lemma iter_shift (n : nat) (f : F -> F) (x : F) :
  Nat.iter n f (f x) = Nat.iter (S n) f x.
Proof. induction n as [|n IH]; simpl; [reflexivity|]. rewrite IH. reflexivity. Qed.

(** What [Transform] leaves in the frame, whether it returns or panics. *)
Lemma Transform_entries (f : F -> F) (cols : list Z) (df : DataFrame F) :
  wf_df df ->
  let df' := snd (Transform f cols df) in
  wf_df df' /\
  df_rows df' = df_rows df /\ df_cols df' = df_cols df /\
  df_labels df' = df_labels df /\
  (fst (Transform f cols df) = Ok tt <-> applied (df_cols df) cols = cols) /\
  forall r c, r < df_rows df -> c < df_cols df ->
    entry (df_data df') r c =
    Nat.iter (times_listed (applied (df_cols df) cols) c) f
      (entry (df_data df) r c).
Proof.
  revert df. induction cols as [|col rest IH]; intros df Hwf; simpl.
  - repeat split; auto; apply Hwf.
  - pose proof Hwf as (Hw & Hrows & Hcols).
    destruct (col_ok (df_data df) col) eqn:Hj.
    + destruct (Transform_col_runs f col Hwf Hj)
        as (d' & E & Hr & Hc & Hw' & Hent).
      set (df1 := mkDF d' (df_cols df) (df_rows df) (df_labels df)) in *.
      assert (Estep : bind (Transform_col f col) (fun _ => Transform f rest) df
                      = Transform f rest df1)
        by (unfold bind; rewrite E; reflexivity).
      rewrite Estep.
      assert (Hwf1 : wf_df df1)
        by (unfold wf_df, df1; simpl; repeat split; congruence).
      destruct (IH df1 Hwf1) as (Hwf2 & Hr2 & Hc2 & Hl2 & Hok & Hent2).
      unfold col_ok in Hj. rewrite <- Hcols in Hj. rewrite Hj.
      simpl in Hr2, Hc2, Hl2, Hok, Hent2.
      split; [exact Hwf2|]. repeat split; auto.
      * intros Hres. f_equal. apply Hok. exact Hres.
      * intros Heq. apply Hok. injection Heq. trivial.
      * intros r c Hr' Hc'. rewrite Hent2 by assumption.
        rewrite Hent by congruence.
        unfold times_listed. simpl.
        apply andb_true_iff in Hj. rewrite Z.leb_le, Z.ltb_lt in Hj.
        destruct (Z.eq_dec col (Z.of_nat c)) as [->|Hne].
        -- rewrite Nat2Z.id, Nat.eqb_refl. apply iter_shift.
        -- destruct (Nat.eqb_spec c (Z.to_nat col)) as [->|]; [|reflexivity].
           exfalso. apply Hne. rewrite Z2Nat.id; lia.
    + assert (Estep : bind (Transform_col f col) (fun _ => Transform f rest) df
                      = (Panic ErrIndexOutOfRange, df))
        by (unfold bind; rewrite (Transform_col_panics f col df Hj); reflexivity).
      rewrite Estep.
      unfold col_ok in Hj. rewrite <- Hcols in Hj. rewrite Hj. simpl.
      split; [exact Hwf|]. repeat split; auto; discriminate.
Qed.

End TransformFacts.

(** ** Loops *)

Section LoopFacts.
Context {A B : Type}.

Lemma ofold_app (body : A -> B -> outcome A) (l1 l2 : list B) (a : A) :
  ofold body (l1 ++ l2) a = obind (ofold body l1 a) (ofold body l2).
Proof.
  revert a; induction l1 as [|b t IH]; intros a; simpl; [reflexivity|].
  destruct (body a b); simpl; auto.
Qed.

Lemma ofold_ext (body body' : A -> B -> outcome A) (l : list B) (a : A) :
  (forall a b, In b l -> body a b = body' a b) ->
  ofold body l a = ofold body' l a.
Proof.
  revert a; induction l as [|b t IH]; intros a Hext; simpl; [reflexivity|].
  rewrite Hext by (left; reflexivity).
  destruct (body' a b); simpl; auto.
  apply IH. intros a' b' Hin. apply Hext. right. exact Hin.
Qed.

(** A loop whose every round succeeds and keeps [P] succeeds and keeps [P]. *)
Lemma ofold_invariant (P : A -> Prop) (body : A -> B -> outcome A)
    (l : list B) (a : A) :
  P a ->
  (forall a b, P a -> In b l -> exists a', body a b = Ok a' /\ P a') ->
  exists a', ofold body l a = Ok a' /\ P a'.
Proof.
  revert a; induction l as [|b t IH]; intros a Ha Hstep; simpl.
  - exists a. auto.
  - destruct (Hstep a b Ha (or_introl eq_refl)) as (a1 & E & Ha1).
    rewrite E. simpl. apply IH; auto.
    intros a' b' Ha' Hin. apply Hstep; auto. right. exact Hin.
Qed.

(** A loop panics in the first round that panics. *)
Lemma ofold_panics (body : A -> B -> outcome A) (l1 l2 : list B) (b : B)
    (a a1 : A) (e : string) :
  ofold body l1 a = Ok a1 -> body a1 b = Panic e ->
  ofold body (l1 ++ b :: l2) a = Panic e.
Proof.
  intros E1 E2. rewrite ofold_app, E1. simpl. rewrite E2. reflexivity.
Qed.

End LoopFacts.

Lemma in_grid (a b i j : nat) : In (i, j) (grid a b) <-> i < a /\ j < b.
Proof.
  unfold grid. rewrite in_flat_map. split.
  - intros (i' & Hi & Hj). apply in_map_iff in Hj.
    destruct Hj as (j' & E & Hj). injection E as -> ->.
    apply in_seq in Hi, Hj. lia.
  - intros (Hi & Hj). exists i. split; [apply in_seq; lia|].
    apply in_map_iff. exists j. split; [reflexivity | apply in_seq; lia].
Qed.

Lemma upd_same {A} (l : list A) (i : nat) (d : A) : upd l i (nth i l d) = l.
Proof.
  revert i; induction l as [|h t IH]; intros [|i]; simpl; auto.
  rewrite IH. reflexivity.
Qed.

Lemma upd_repeat {A} (v : A) (k i : nat) : upd (repeat v k) i v = repeat v k.
Proof.
  revert i; induction k as [|k IH]; intros [|i]; simpl; auto.
  rewrite IH. reflexivity.
Qed.

Lemma upd_upd {A} (l : list A) (i : nat) (v w : A) :
  upd (upd l i v) i w = upd l i w.
Proof.
  revert i; induction l as [|h t IH]; intros [|i]; simpl; auto.
  rewrite IH. reflexivity.
Qed.

(** ** Matrices entry by entry *)

Section EntryFacts.
Context {F : Type} `{Scalar F}.

Lemma nth_flat_rows (f : nat -> nat -> F) (c r s i j : nat) (d : F) :
  i < r -> j < c ->
  nth (i * c + j) (flat_map (fun a => map (f a) (seq 0 c)) (seq s r)) d
  = f (s + i) j.
Proof.
  revert s i; induction r as [|r IH]; intros s i Hi Hj; [lia|].
  simpl. destruct i as [|i].
  - simpl. rewrite app_nth1 by (rewrite length_map, length_seq; exact Hj).
    rewrite nth_indep with (d' := f s 0)
      by (rewrite length_map, length_seq; exact Hj).
    rewrite map_nth, seq_nth by exact Hj. rewrite Nat.add_0_r. reflexivity.
  - rewrite app_nth2 by (rewrite length_map, length_seq; simpl; lia).
    rewrite length_map, length_seq.
    replace (Datatypes.S i * c + j - c) with (i * c + j) by (simpl; lia).
    rewrite IH by lia. f_equal. lia.
Qed.

Lemma entry_tabulate (r c : nat) (f : nat -> nat -> F) (i j : nat) :
  i < r -> j < c -> entry (tabulate r c f) i j = f i j.
Proof.
  intros Hi Hj. unfold entry, tabulate; simpl.
  rewrite nth_flat_rows by assumption. reflexivity.
Qed.

Lemma rows_tabulate (r c : nat) (f : nat -> nat -> F) :
  rows (tabulate r c f) = r.
Proof. reflexivity. Qed.

Lemma cols_tabulate (r c : nat) (f : nat -> nat -> F) :
  cols (tabulate r c f) = c.
Proof. reflexivity. Qed.

Lemma flat_rows_length (f : nat -> nat -> F) (c r s : nat) :
  length (flat_map (fun a => map (f a) (seq 0 c)) (seq s r)) = r * c.
Proof.
  revert s; induction r as [|r IH]; intros s; simpl; [reflexivity|].
  rewrite length_app, length_map, length_seq, IH. reflexivity.
Qed.

Lemma tabulate_wf (r c : nat) (f : nat -> nat -> F) : wf (tabulate r c f).
Proof. unfold wf, tabulate; simpl. apply flat_rows_length. Qed.

Lemma in_range_spec (m : Dense F) (r c : nat) :
  in_range m r c = true <-> r < rows m /\ c < cols m.
Proof.
  unfold in_range. rewrite andb_true_iff, !Nat.ltb_lt. tauto.
Qed.



Lemma Set_out_of_range (m : Dense F) (i j : nat) (v : F) :
  in_range m i j = false -> Set_ m i j v = Panic ErrIndexOutOfRange.
Proof. intros E. unfold Set_. rewrite E. reflexivity. Qed.


Lemma entry_zeros (r c i j : nat) : entry (zeros r c) i j = f0.
Proof.
  unfold entry, zeros; simpl.
  destruct (Nat.lt_ge_cases (i * c + j) (r * c)) as [Hlt|Hge].
  - apply nth_repeat_lt. exact Hlt.
  - apply nth_overflow. rewrite repeat_length. exact Hge.
Qed.

Lemma Set_zero_zeros (r c i j : nat) :
  i < r -> j < c -> Set_ (zeros r c) i j f0 = Ok (zeros r c).
Proof.
  intros Hi Hj. unfold Set_.
  replace (in_range (zeros r c) i j) with true
    by (symmetry; apply in_range_spec; auto).
  unfold zeros; simpl. rewrite upd_repeat. reflexivity.
Qed.

End EntryFacts.

(** ** [LeveragePoints] *)

Section LeverageFacts.
Context {F : Type} `{Scalar F}.

(** A round of the loop that fills [trans] ends with [trans.Set(i, j, 0.0)]:
    on the all-zero matrix it changes nothing. *)
Lemma trans_cell_zeros (p' r c i j : nat) :
  i < r -> j < c -> trans_cell p' (zeros r c) (i, j) = Ok (zeros r c).
Proof.
  intros Hi Hj.
  assert (Hin : (i <? r) && (j <? c) = true)
    by (apply andb_true_iff; rewrite !Nat.ltb_lt; auto).
  unfold trans_cell, Set_, in_range, zeros.
  destruct ((i =? j) && (i <? p')); cbn [obind rows cols data];
    rewrite ?Hin; cbn [obind rows cols data];
    rewrite ?Hin, ?upd_upd, upd_repeat; reflexivity.
Qed.

Lemma trans_cell_out_of_range (p' : nat) (m : Dense F) (i j : nat) :
  in_range m i j = false ->
  trans_cell p' m (i, j) = Panic ErrIndexOutOfRange.
Proof.
  intros E. unfold trans_cell.
  destruct ((i =? j) && (i <? p')); simpl.
  - rewrite Set_out_of_range by exact E. reflexivity.
  - apply Set_out_of_range. exact E.
Qed.

Lemma trans_loop_zeros (p' r c : nat) (l : list (nat * nat)) :
  (forall i j, In (i, j) l -> i < r /\ j < c) ->
  ofold (trans_cell p') l (zeros r c) = Ok (zeros r c).
Proof.
  intros Hl.
  destruct (@ofold_invariant _ _ (fun m => m = zeros r c) (trans_cell p') l
              (zeros r c) eq_refl) as (m & E & ->); [|exact E].
  intros m [i j] -> Hin. exists (zeros r c). split; [|reflexivity].
  destruct (Hl i j Hin). apply trans_cell_zeros; assumption.
Qed.

Lemma grid_first_row (a b k : nat) :
  k < b ->
  exists rest,
    grid (Datatypes.S a) b = map (fun j => (0, j)) (seq 0 k) ++ (0, k) :: rest.
Proof.
  intros Hk. unfold grid.
  assert (Eb : exists m, b = k + Datatypes.S m)
    by (exists (b - k - 1); lia).
  destruct Eb as (m & ->).
  cbn [seq flat_map]. rewrite seq_app, map_app.
  cbn [seq map Nat.add]. rewrite <- app_assoc. cbn [app].
  eexists. reflexivity.
Qed.

(** With more rows than columns the second loop index leaves the matrix. *)
Lemma trans_loop_tall (n' p' : nat) :
  p' < n' ->
  ofold (trans_cell p') (grid n' n') (zeros n' p') = Panic ErrIndexOutOfRange.
Proof.
  intros Hlt. destruct n' as [|n']; [lia|].
  destruct (@grid_first_row n' (Datatypes.S n') p' Hlt) as (rest & ->).
  apply ofold_panics with (a1 := zeros (Datatypes.S n') p').
  - apply trans_loop_zeros. intros i j Hin.
    apply in_map_iff in Hin. destruct Hin as (j' & E & Hj').
    injection E as <- <-. apply in_seq in Hj'. lia.
  - apply trans_cell_out_of_range. unfold in_range, zeros; simpl.
    rewrite Nat.ltb_irrefl. reflexivity.
Qed.

(** The Q factor of a design with more rows than columns: the call panics
    while it fills [trans], and the model is left as it was. *)
Lemma LeveragePoints_tall (lib : Linalg F) (o : OLS F) (qrf : QRFactor F) :
  QR lib (df_data (x o)) = Ok qrf ->
  cols (qr_Q qrf) < rows (qr_Q qrf) ->
  LeveragePoints lib o = (Panic ErrIndexOutOfRange, o).
Proof.
  intros Hqr Htall. unfold LeveragePoints, bind, get, lift.
  rewrite Hqr. unfold Dims, NewDense.
  fold (zeros (rows (qr_Q qrf)) (cols (qr_Q qrf))).
  rewrite trans_loop_tall by exact Htall. reflexivity.
Qed.

(** With fewer rows than columns the product [q * trans] has no shape. *)
Lemma LeveragePoints_wide (lib : Linalg F) (o : OLS F) (qrf : QRFactor F) :
  QR lib (df_data (x o)) = Ok qrf ->
  rows (qr_Q qrf) < cols (qr_Q qrf) ->
  LeveragePoints lib o = (Panic ErrShape, o).
Proof.
  intros Hqr Hwide. unfold LeveragePoints, bind, get, lift.
  rewrite Hqr. unfold Dims, NewDense.
  fold (zeros (rows (qr_Q qrf)) (cols (qr_Q qrf))).
  rewrite trans_loop_zeros
    by (intros i j Hin; apply in_grid in Hin; lia).
  unfold Mul, MulTrans, tcols, trows; simpl.
  replace (cols (qr_Q qrf) =? rows (qr_Q qrf)) with false
    by (symmetry; apply Nat.eqb_neq; lia).
  reflexivity.
Qed.

Lemma LeveragePoints_no_QR (lib : Linalg F) (o : OLS F) (e : string) :
  QR lib (df_data (x o)) = Panic e ->
  LeveragePoints lib o = (Panic e, o).
Proof.
  intros Hqr. unfold LeveragePoints, bind, get, lift.
  rewrite Hqr. reflexivity.
Qed.

End LeverageFacts.

(** *** Exact arithmetic: what [LeveragePoints] returns when it returns *)

Section LeverageExact.

Lemma fold_zeros (l : list R) (a : R) :
  (forall v, In v l -> v = 0%R) -> fold_left Rplus l a = a.
Proof.
  revert a; induction l as [|v t IH]; intros a Hz; simpl; [reflexivity|].
  rewrite (Hz v) by (left; reflexivity).
  rewrite Rplus_0_r. apply IH. intros w Hw. apply Hz. right. exact Hw.
Qed.

Lemma fsum_zeros (l : list R) :
  (forall v, In v l -> v = 0%R) -> fsum l = 0%R.
Proof. intros Hz. unfold fsum. simpl. apply fold_zeros. exact Hz. Qed.

Lemma dot_zero_right (ta tb : bool) (a b : Dense R) (i j : nat) :
  (forall k, k < tcols ta a -> tentry tb b k j = 0%R) ->
  dot ta a tb b i j = 0%R.
Proof.
  intros Hz. unfold dot. apply fsum_zeros. intros v Hv.
  apply in_map_iff in Hv. destruct Hv as (k & <- & Hk).
  apply in_seq in Hk. rewrite Hz by lia. simpl. apply Rmult_0_r.
Qed.

Lemma dot_zero_left (ta tb : bool) (a b : Dense R) (i j : nat) :
  (forall k, k < tcols ta a -> tentry ta a i k = 0%R) ->
  dot ta a tb b i j = 0%R.
Proof.
  intros Hz. unfold dot. apply fsum_zeros. intros v Hv.
  apply in_map_iff in Hv. destruct Hv as (k & <- & Hk).
  apply in_seq in Hk. rewrite Hz by lia. simpl. apply Rmult_0_l.
Qed.

Lemma diag_loop_zeros (Hm : Dense R) (k : nat) (l : list (nat * nat)) :
  (forall i, i < k -> At Hm i i = Ok 0%R) ->
  (forall i j, In (i, j) l -> i < k) ->
  ofold (diag_cell Hm) l (repeat 0%R k) = Ok (repeat 0%R k).
Proof.
  intros Hat Hl.
  destruct (@ofold_invariant _ _ (fun d => d = repeat 0%R k) (diag_cell Hm) l
              (repeat 0%R k) eq_refl) as (d & E & ->); [|exact E].
  intros d [i j] -> Hin. exists (repeat 0%R k). split; [|reflexivity].
  unfold diag_cell. destruct (Nat.eqb_spec j i) as [->|]; [|reflexivity].
  rewrite Hat by (apply (Hl i i Hin)). simpl. unfold assign.
  rewrite repeat_length.
  replace (i <? k) with true
    by (symmetry; apply Nat.ltb_lt; apply (Hl i i Hin)).
  rewrite upd_repeat. reflexivity.
Qed.

(** With a square Q factor the call returns, and every value is zero. *)
Lemma LeveragePoints_square (lib : Linalg R) (o : OLS R) (qrf : QRFactor R) :
  QR lib (df_data (x o)) = Ok qrf ->
  rows (qr_Q qrf) = cols (qr_Q qrf) ->
  exists Hm,
    LeveragePoints lib o = (Ok (repeat 0%R (rows (qr_Q qrf))), set_hat o Hm).
Proof.
  intros Hqr Hsq. unfold LeveragePoints, bind, get, lift, put.
  rewrite Hqr. unfold Dims, NewDense.
  set (q := qr_Q qrf) in *. set (k := rows q) in *.
  rewrite <- Hsq. fold (@zeros R _ k k).
  rewrite trans_loop_zeros
    by (intros i j Hin; apply in_grid in Hin; lia).
  unfold Mul, MulTrans, product, tcols, trows.
  rewrite ?rows_tabulate, ?cols_tabulate.
  cbn [rows cols zeros]. rewrite <- Hsq. fold k.
  rewrite Nat.eqb_refl. cbn [negb].
  rewrite ?rows_tabulate, ?cols_tabulate, Nat.eqb_refl. cbn [negb].
  eexists. f_equal.
  apply diag_loop_zeros; [|intros i j Hin; apply in_grid in Hin; lia].
  intros i Hi. unfold At, in_range.
  rewrite rows_tabulate, cols_tabulate.
  replace (i <? k) with true by (symmetry; apply Nat.ltb_lt; exact Hi).
  cbn [andb]. f_equal.
  rewrite (@entry_tabulate R _ k k _ i i Hi Hi).
  apply dot_zero_left. unfold tcols, tentry; cbn [rows cols].
  intros c Hc. rewrite (@entry_tabulate R _ k k _ i c Hi Hc).
  apply dot_zero_right. intros c' _. unfold tentry.
  exact (entry_zeros k k c' c).
Qed.

End LeverageExact.

(** *** What [LeveragePoints] does to the model *)

Section LeverageState.
Context {F : Type} `{Scalar F}.

(** The only field [LeveragePoints] writes is [hat]. *)
Lemma LeveragePoints_state (lib : Linalg F) (o : OLS F) :
  snd (LeveragePoints lib o) = o \/
  exists Hm, snd (LeveragePoints lib o) = set_hat o Hm.
Proof.
  unfold LeveragePoints, bind, get, lift, put.
  destruct (QR lib (df_data (x o))) as [qrf|e]; [|left; reflexivity].
  unfold Dims.
  destruct (NewDense _ _ None) as [t0|e]; [|left; reflexivity].
  destruct (ofold (trans_cell _) _ t0) as [t1|e]; [|left; reflexivity].
  destruct (Mul None _ t1) as [h1|e]; [|left; reflexivity].
  destruct (MulTrans None h1 false _ true) as [h2|e]; [|left; reflexivity].
  right. exists h2. destruct (ofold (diag_cell h2) _ _); reflexivity.
Qed.

Lemma LeveragePoints_keeps (lib : Linalg F) (o : OLS F) :
  let o' := snd (LeveragePoints lib o) in
  x o' = x o /\ n o' = n o /\ p o' = p o /\
  residuals o' = residuals o /\ fitted o' = fitted o.
Proof.
  destruct (LeveragePoints_state lib o) as [E|(Hm & E)]; simpl; rewrite E;
    repeat split.
Qed.

End LeverageState.

(** C1.  The claim: for every fitted model, [LeveragePoints] returns [n]
    values in [0, 1] that sum to [p].  The code: in exact arithmetic, for
    every model and every QR routine, the call either panics or returns
    nothing but zeros; it panics whenever the Q factor has more rows than
    columns (the design of every fit with [n > p]).  The assignment
    [trans.Set(i, j, 0.0)] is not under an [else], and the second loop runs
    to [n] on a matrix with [p] columns. *)
Theorem LeveragePoints_panics_or_zeros (lib : Linalg R) (o : OLS R) :
  (exists e, fst (LeveragePoints lib o) = Panic e) \/
  (exists k, fst (LeveragePoints lib o) = Ok (repeat 0%R k)).
Proof.
  destruct (QR lib (df_data (x o))) as [qrf|e] eqn:Hqr.
  - destruct (Nat.lt_trichotomy (rows (qr_Q qrf)) (cols (qr_Q qrf)))
      as [Hlt|[Heq|Hgt]].
    + left. exists ErrShape.
      rewrite (LeveragePoints_wide lib o Hqr Hlt). reflexivity.
    + right. exists (rows (qr_Q qrf)).
      destruct (LeveragePoints_square lib o Hqr Heq) as (Hm & E).
      rewrite E. reflexivity.
    + left. exists ErrIndexOutOfRange.
      rewrite (LeveragePoints_tall lib o Hqr Hgt). reflexivity.
  - left. exists e. rewrite (LeveragePoints_no_QR lib o Hqr). reflexivity.
Qed.

(** On the example (binary64): the call panics and returns no leverage. *)
Example LeveragePoints_o345 :
  LeveragePoints lib345 (o345 (F := float)) = (Panic ErrIndexOutOfRange, o345).
Proof. vm_compute. reflexivity. Qed.

(** ** [PRESS] *)

Section PressFacts.
Context {F : Type} `{Scalar F}.

Lemma index_nth {A} (l : list A) (i : nat) (d : A) :
  i < length l -> index l i = Ok (nth i l d).
Proof.
  intros Hi. unfold index.
  destruct (nth_error l i) as [v|] eqn:E.
  - rewrite (nth_error_nth _ _ d E). reflexivity.
  - apply nth_error_None in E. lia.
Qed.

Lemma index_out_of_range {A} (l : list A) (i : nat) :
  length l <= i -> index l i = Panic ErrSliceIndex.
Proof.
  intros Hi. unfold index.
  replace (nth_error l i) with (@None A)
    by (symmetry; apply nth_error_None; exact Hi).
  reflexivity.
Qed.

Lemma make_ok (k : Z) :
  (0 <= k)%Z -> make (F := F) k = Ok (repeat f0 (Z.to_nat k)).
Proof.
  intros Hk. unfold make.
  replace (k <? 0)%Z with false by (symmetry; apply Z.ltb_ge; exact Hk).
  reflexivity.
Qed.

(** The loop of [PRESS] over its first [m] rounds. *)
Lemma PRESS_loop (o : OLS F) (h press0 : list F) (m : nat) :
  m <= length press0 -> m <= length (residuals o) -> m <= length h ->
  exists press,
    ofold (PRESS_cell o h) (seq 0 m) press0 = Ok press /\
    length press = length press0 /\
    (forall i, i < m ->
       nth i press f0 = fdiv (nth i (residuals o) f0) (fsub f1 (nth i h f0))) /\
    (forall i, m <= i -> nth i press f0 = nth i press0 f0).
Proof.
  induction m as [|m IH]; intros Hp Hr Hh.
  - exists press0. simpl. repeat split; auto. intros i Hi. lia.
  - destruct IH as (press & E & Hlen & Hlow & Hhigh); try lia.
    rewrite seq_S, ofold_app, E. simpl.
    unfold PRESS_cell.
    rewrite (index_nth (residuals o) f0), (index_nth h f0) by lia.
    simpl. unfold assign.
    replace (m <? length press) with true
      by (symmetry; apply Nat.ltb_lt; lia).
    eexists. split; [reflexivity|].
    rewrite upd_length. split; [exact Hlen|]. split.
    + intros i Hi. rewrite nth_upd.
      destruct (Nat.eqb_spec i m) as [->|Hne].
      * replace (m <? length press) with true
          by (symmetry; apply Nat.ltb_lt; lia).
        reflexivity.
      * simpl. apply Hlow. lia.
    + intros i Hi. rewrite nth_upd.
      replace (i =? m) with false by (symmetry; apply Nat.eqb_neq; lia).
      simpl. apply Hhigh. lia.
Qed.

(** Whenever [LeveragePoints] returns [h], [PRESS] returns
    [residual_i / (1 - h_i)] for every observation. *)
Lemma PRESS_formula (lib : Linalg F) (o o' : OLS F) (h : list F) :
  LeveragePoints lib o = (Ok h, o') ->
  (0 <= n o)%Z ->
  Z.to_nat (n o) <= length (residuals o) ->
  Z.to_nat (n o) <= length h ->
  exists press,
    PRESS lib o = (Ok press, o') /\
    length press = Z.to_nat (n o) /\
    forall i, i < Z.to_nat (n o) ->
      nth i press f0 = fdiv (nth i (residuals o) f0) (fsub f1 (nth i h f0)).
Proof.
  intros Hlev Hn Hr Hh.
  pose proof (LeveragePoints_keeps lib o) as Hk. rewrite Hlev in Hk.
  simpl in Hk. destruct Hk as (_ & Hn' & _ & Hres & _).
  unfold PRESS, bind, get, lift. rewrite (make_ok Hn), Hlev.
  unfold upto. rewrite Hn'.
  destruct (@PRESS_loop o' h (repeat f0 (Z.to_nat (n o))) (Z.to_nat (n o)))
    as (press & E & Hlen & Hlow & _);
    rewrite ?repeat_length, ?Hres; auto.
  exists press. rewrite E. rewrite repeat_length in Hlen.
  rewrite Hres in Hlow. auto.
Qed.

(** A panic of [LeveragePoints] is a panic of [PRESS]. *)
Lemma PRESS_panics (lib : Linalg F) (o o' : OLS F) (e : string) :
  LeveragePoints lib o = (Panic e, o') ->
  (0 <= n o)%Z ->
  PRESS lib o = (Panic e, o').
Proof.
  intros Hlev Hn. unfold PRESS, bind, get, lift.
  rewrite (make_ok Hn), Hlev. reflexivity.
Qed.

End PressFacts.

(** C3.  The claim: for every fitted model [PRESS] returns [n] values
    [residual_i / (1 - h_ii)].  The code: the leverages come from
    [LeveragePoints], so for every design whose Q factor has more rows than
    columns (every fit with [n > p]) the call panics and returns nothing.
    (Whenever [LeveragePoints] does return, the loop of [PRESS] computes
    the formula from what it returned: lemma [PRESS_formula].) *)
Theorem PRESS_panics_on_tall_design
    {F : Type} `{Scalar F} (lib : Linalg F) (o : OLS F) (qrf : QRFactor F) :
  QR lib (df_data (x o)) = Ok qrf ->
  cols (qr_Q qrf) < rows (qr_Q qrf) ->
  (0 <= n o)%Z ->
  PRESS lib o = (Panic ErrIndexOutOfRange, o).
Proof.
  intros Hqr Htall Hn. apply PRESS_panics; [|exact Hn].
  apply (LeveragePoints_tall lib o Hqr Htall).
Qed.

Lemma PRESS_panics_on_o345 :
  PRESS lib345 (o345 (F := float)) = (Panic ErrIndexOutOfRange, o345).
Proof.
  apply (@PRESS_panics_on_tall_design float _ lib345 o345 (mkQR Q345 R345)).
  - reflexivity.
  - simpl. lia.
  - simpl. lia.
Defined.

Lemma PRESS_formula_on_o22 :
  exists press,
    PRESS lib22 (o22 (F := float))
      = (Ok press, snd (LeveragePoints lib22 (o22 (F := float)))) /\
    length press = 2 /\
    forall i, i < 2 ->
      nth i press 0%float
      = PrimFloat.div (nth i (residuals (o22 (F := float))) 0%float)
          (PrimFloat.sub 1 (nth i [0; 0]%float 0%float)).
Proof.
  assert (E : LeveragePoints lib22 (o22 (F := float))
              = (Ok [0; 0]%float, snd (LeveragePoints lib22 (o22 (F := float)))))
    by (vm_compute; reflexivity).
  exact (@PRESS_formula float _ lib22 o22 _ [0; 0]%float E
           Z.le_0_2 (le_n 2) (le_n 2)).
Defined.

(** ** The fan-out: completions received never exceed goroutines started *)

Section FanOutFacts.
Variables (S L : Type) (prog : program S L).

Lemma finished_count_le (ts : list (thread S L)) :
  finished_count ts <= length ts.
Proof.
  induction ts as [|[a l|] rest IH]; simpl; lia.
Qed.

Lemma finished_count_app (ts us : list (thread S L)) :
  finished_count (ts ++ us) = finished_count ts + finished_count us.
Proof.
  induction ts as [|[a l|] rest IH]; simpl; auto.
Qed.

Lemma finished_count_step (ts : list (thread S L)) (t : nat)
    (a a' : list (action S L)) (l l' : L) :
  nth_error ts t = Some (Working a l) ->
  finished_count (upd ts t (Working a' l')) = finished_count ts.
Proof.
  revert t; induction ts as [|th rest IH]; intros [|t] E; simpl in *;
    try discriminate.
  - injection E as ->. reflexivity.
  - destruct th; rewrite (IH t E); reflexivity.
Qed.

Lemma finished_count_send (ts : list (thread S L)) (t : nat)
    (a : list (action S L)) (l : L) :
  nth_error ts t = Some (Working a l) ->
  finished_count (upd ts t Finished) = Datatypes.S (finished_count ts).
Proof.
  revert t; induction ts as [|th rest IH]; intros [|t] E; simpl in *;
    try discriminate.
  - injection E as ->. reflexivity.
  - destruct th; rewrite (IH t E); reflexivity.
Qed.

Lemma balanced_initial (s : S) : balanced prog (initial L s).
Proof. unfold balanced, initial; simpl. repeat split; lia. Qed.

Lemma balanced_step (c c' : config S L) (ch : choice) :
  balanced prog c -> step prog c ch = Some (Running c') -> balanced prog c'.
Proof.
  intros (Hcount & Hlen & Hpc) Hstep. destruct ch as [|t]; simpl in Hstep.
  - unfold main_step in Hstep. destruct (pc c) as [| |k|rest|] eqn:Epc.
    + destruct (Nat.ltb_spec (ivar c) (bound prog));
        injection Hstep as <-; unfold balanced; simpl in *;
        rewrite ?finished_count_app, ?length_app; simpl;
        repeat split; lia.
    + injection Hstep as <-; unfold balanced; simpl in *.
      repeat split; lia.
    + destruct (Nat.ltb_spec k NCPU).
      * destruct (chan c) as [|n0] eqn:Ech; [discriminate|].
        injection Hstep as <-; unfold balanced; simpl in *.
        repeat split; lia.
      * injection Hstep as <-; unfold balanced; simpl in *.
        repeat split; lia.
    + destruct rest; injection Hstep as <-; unfold balanced; simpl in *;
        repeat split; lia.
    + discriminate.
  - unfold thread_step in Hstep.
    destruct (nth_error (threads c) t) as [[[|a rest] l|]|] eqn:Eth;
      try discriminate.
    + destruct (Nat.ltb_spec (chan c) NCPU); [|discriminate].
      injection Hstep as <-; unfold balanced; simpl.
      rewrite (finished_count_send _ _ Eth), upd_length.
      repeat split; try lia. destruct (pc c); auto; rewrite upd_length; auto.
    + destruct (a (ivar c) l (shared c)) as [[l' s']|e]; [|discriminate].
      injection Hstep as <-; unfold balanced; simpl.
      rewrite (finished_count_step _ _ _ _ Eth), upd_length.
      repeat split; try lia. destruct (pc c); auto; rewrite upd_length; auto.
Qed.

Lemma balanced_run (sched : list choice) (c c' : config S L) :
  balanced prog c -> run prog sched (Running c) = Some (Running c') -> balanced prog c'.
Proof.
  revert c; induction sched as [|ch rest IH]; intros c Hb Hrun; simpl in Hrun.
  - injection Hrun as <-. exact Hb.
  - destruct (step prog c ch) as [[c1|e]|] eqn:Estep; try discriminate.
    + apply (IH c1); auto. eapply balanced_step; eauto.
    + destruct rest; simpl in Hrun; discriminate.
Qed.

(** The second loop receives [NCPU] completions whatever the number of
    goroutines: with fewer goroutines than that, the main goroutine waits
    on the channel for ever and the call does not return. *)
Lemma no_return_below_NCPU (s0 s : S) (st : state S L) :
  bound prog < NCPU -> reachable prog s0 st -> ~ returned st s.
Proof.
  intros Hfew (sched & Hrun) (c & -> & Hpc & _).
  pose proof (@balanced_run sched _ _ (balanced_initial s0) Hrun)
    as (Hcount & Hlen & _).
  pose proof (finished_count_le (threads c)).
  rewrite Hpc in Hcount. simpl in Hcount. lia.
Qed.

End FanOutFacts.

(** ** [CooksDistance] *)

Section CooksFacts.
Context {F : Type} `{Scalar F}.

Lemma CooksDistance_start_bound (lib : Linalg F) (o o' : OLS F)
    (prog : program (list F) (F * F)) (d0 : list F) :
  CooksDistance_start lib o = (Ok (prog, d0), o') ->
  bound prog = Z.to_nat (n o).
Proof.
  unfold CooksDistance_start, bind, get, lift, ret.
  pose proof (LeveragePoints_keeps lib o) as Hk.
  destruct (LeveragePoints lib o) as [[h|e] o1]; [|discriminate].
  simpl in Hk. destruct Hk as (_ & Hn & _).
  destruct (make (n o1)) as [d|e]; [|discriminate].
  intros E. injection E as <- _ _. simpl. rewrite Hn. reflexivity.
Qed.


End CooksFacts.

(** C2.  The claim: for every fitted model [CooksDistance] returns [n]
    values, the i-th being the formula at observation i.  The code: the
    main goroutine waits for [NCPU] = 4 completions, not for [n], so with
    fewer than four observations no schedule lets the call return.  (The
    closure also reads the loop variable [i] where it means its parameter
    [idx], and the call starts with [LeveragePoints], which panics on every
    design with more rows than columns.) *)
Theorem CooksDistance_never_returns_below_NCPU
    {F : Type} `{Scalar F} (lib : Linalg F) (o : OLS F) (dists : list F) :
  (n o < Z.of_nat NCPU)%Z -> ~ CooksDistance_returns lib o dists.
Proof.
  intros Hn (prog & d0 & o' & st & Hstart & Hreach & Hret).
  apply CooksDistance_start_bound in Hstart.
  apply (@no_return_below_NCPU _ _ prog d0 dists st); auto.
  rewrite Hstart. unfold NCPU in *. lia.
Qed.

Lemma CooksDistance_never_returns_on_o345 :
  (n (o345 (F := float)) < Z.of_nat NCPU)%Z /\
  forall dists, ~ CooksDistance_returns lib345 (o345 (F := float)) dists.
Proof.
  split; [simpl; lia|]. intros dists.
  apply (@CooksDistance_never_returns_below_NCPU float _ lib345 o345 dists).
  simpl. lia.
Defined.


(** A goroutine that runs after the loop has ended reads [o.residuals[n]]. *)
Example CooksDistance_late_goroutine_crashes :
  run (Cooks_program (o5 (F := float)) h5 (MeanSquaredError o5))
      (repeat RunMain 11 ++ [RunThread 0])
      (Running (initial _ (repeat 0%float 5)))
  = Some (Crashed ErrSliceIndex).
Proof. vm_compute. reflexivity. Qed.

(** ** [VarianceCovarianceMatrix] *)

Section VarCovFacts.
Context {F : Type} `{Scalar F}.




Lemma flat_index_split (c k : nat) :
  0 < c -> k = (k / c) * c + k mod c /\ k mod c < c.
Proof.
  intros Hc. split.
  - rewrite Nat.mul_comm. apply Nat.div_mod_eq.
  - apply Nat.mod_upper_bound. lia.
Qed.

(** Matrices that fill their backing slice are equal when their entries are. *)
Lemma dense_ext (a b : Dense F) :
  wf a -> wf b -> same_entries a b -> a = b.
Proof.
  destruct a as [ra ca da], b as [rb cb db].
  unfold wf, same_entries, entry; simpl.
  intros Ha Hb (-> & -> & Hent). f_equal.
  apply (nth_ext _ _ f0 f0); [congruence|].
  intros k Hk. rewrite Ha in Hk.
  destruct (Nat.eq_dec cb 0) as [->|Hc]; [lia|].
  destruct (@flat_index_split cb k) as (E & Hm); [lia|].
  rewrite E. apply Hent; [|exact Hm].
  apply Nat.Div0.div_lt_upper_bound. lia.
Qed.





End VarCovFacts.



(** *** Exact arithmetic: finite sums and products of matrices *)

Section ExactAlgebra.
Local Open Scope R_scope.







Lemma bigsum_zero (k : nat) (f : nat -> R) :
  (forall x, (x < k)%nat -> f x = 0) -> bigsum k f = 0.
Proof.
  induction k as [|k IH]; intros Hz; simpl; [reflexivity|].
  rewrite IH, Hz by (intros; try apply Hz; lia). lra.
Qed.

Lemma bigsum_delta_r (k j : nat) (f : nat -> R) :
  (j < k)%nat -> bigsum k (fun x => f x * Id x j) = f j.
Proof.
  induction k as [|k IH]; intros Hj; [lia|]. simpl.
  destruct (Nat.eq_dec j k) as [->|Hne].
  - unfold Id at 2. rewrite Nat.eqb_refl.
    rewrite bigsum_zero; [lra|].
    intros x Hx. unfold Id.
    replace (x =? k)%nat with false by (symmetry; apply Nat.eqb_neq; lia).
    lra.
  - rewrite IH by lia. unfold Id.
    replace (k =? j)%nat with false by (symmetry; apply Nat.eqb_neq; lia).
    lra.
Qed.







Lemma mm_Id_r (k : nat) (A : nat -> nat -> R) (i j : nat) :
  (j < k)%nat -> mm k A Id i j = A i j.
Proof. intros Hj. unfold mm. apply (bigsum_delta_r (fun x => A i x) Hj). Qed.



End ExactAlgebra.

(** *** Exact arithmetic: the variance-covariance matrix *)

Section VarCovExact.
Local Open Scope R_scope.





End VarCovExact.





(** ** [VarianceInflationFactors] *)

Section VIFFacts.
Context {F : Type} `{Scalar F}.




(** When a refit fails the call panics with the model as the round left
    it: column [idx] of the design holds zeros. *)
Lemma VIF_round_fails (fitter : Fitter F) (vifs : list F) (idx : nat)
    (o : OLS F) (col z : list F) (d : Dense F) (e : error) (ft : fit F) :
  Col_nil (df_data (x o)) (Z.of_nat idx) = Ok col ->
  Rep f0 (n o) = Ok z ->
  SetCol (df_data (x o)) (Z.of_nat idx) z = Ok d ->
  Train fitter (set_data o d) col = (Ok (Some e), ft) ->
  VIF_round fitter vifs idx o
  = (Panic VIFError, store_fit (set_data o d) ft).
Proof.
  intros E1 E2 E3 E4. unfold VIF_round, bind, get, lift, put, train, panic.
  rewrite E1, E2, E3, E4. reflexivity.
Qed.

End VIFFacts.

(** ** The fan-out: what every statement keeps, every configuration has *)

Section FanOutInvariant.
Variables (S L : Type) (prog : program S L) (P : S -> Prop).

Hypothesis body_keeps : forall idx, Forall (keeps P) (body prog idx).
Hypothesis finish_keeps : Forall (fun g => forall s, P s -> P (g s)) (finish prog).

Lemma Forall_upd {A} (Q : A -> Prop) (l : list A) (i : nat) (v : A) :
  Forall Q l -> Q v -> Forall Q (upd l i v).
Proof.
  intros Hl Hv. revert i; induction Hl as [|h t Hh Ht IH]; intros [|i];
    simpl; constructor; auto.
Qed.

Lemma Forall_nth_error {A} (Q : A -> Prop) (l : list A) (i : nat) (v : A) :
  Forall Q l -> nth_error l i = Some v -> Q v.
Proof.
  intros Hl E. apply nth_error_In in E.
  rewrite Forall_forall in Hl. apply Hl. exact E.
Qed.

Lemma config_keeps_step (c c' : config S L) (ch : choice) :
  config_keeps P c -> step prog c ch = Some (Running c') -> config_keeps P c'.
Proof.
  intros (Hs & Hth & Hpc) Hstep. destruct ch as [|t]; simpl in Hstep.
  - unfold main_step in Hstep. destruct (pc c) as [| |k|rest|] eqn:Epc.
    + destruct (ivar c <? bound prog); injection Hstep as <-;
        unfold config_keeps; simpl; repeat split; auto.
      apply Forall_app. split; [exact Hth|].
      constructor; [apply body_keeps | constructor].
    + injection Hstep as <-. unfold config_keeps; simpl. auto.
    + destruct (k <? NCPU).
      * destruct (chan c); [discriminate|].
        injection Hstep as <-. unfold config_keeps; simpl. auto.
      * injection Hstep as <-. unfold config_keeps; simpl. auto.
    + destruct rest as [|g rest]; injection Hstep as <-;
        unfold config_keeps; simpl; auto.
      inversion Hpc; subst. auto.
    + discriminate.
  - unfold thread_step in Hstep.
    destruct (nth_error (threads c) t) as [[[|a rest] l|]|] eqn:Eth;
      try discriminate.
    + destruct (chan c <? NCPU); [|discriminate].
      injection Hstep as <-. unfold config_keeps; simpl.
      repeat split; auto. apply Forall_upd; simpl; auto.
    + destruct (a (ivar c) l (shared c)) as [[l' s']|e] eqn:Ea; [|discriminate].
      injection Hstep as <-. unfold config_keeps; simpl.
      pose proof (Forall_nth_error _ Hth Eth) as Hkeep. simpl in Hkeep.
      inversion Hkeep; subst.
      repeat split; auto.
      * eapply H1; eauto.
      * apply Forall_upd; simpl; auto.
Qed.

Lemma shared_invariant (s0 : S) (c : config S L) :
  P s0 -> reachable prog s0 (Running c) -> P (shared c).
Proof.
  intros Hs0 (sched & Hrun).
  assert (Hinit : config_keeps P (initial L s0))
    by (unfold config_keeps, initial; simpl; auto).
  revert Hrun Hinit. generalize (initial L s0) as c0.
  induction sched as [|ch rest IH]; intros c0 Hrun Hc0; simpl in Hrun.
  - injection Hrun as <-. apply Hc0.
  - destruct (step prog c0 ch) as [[c1|e]|] eqn:Estep; try discriminate.
    + apply (IH c1); auto. eapply config_keeps_step; eauto.
    + destruct rest; simpl in Hrun; discriminate.
Qed.

End FanOutInvariant.

(** ** [DFBETA] *)

Section DFBETAFacts.
Context {F : Type} `{Scalar F}.


End DFBETAFacts.




(** ** [DFFITS] *)

Section FanOutSpawns.
Variables (S L : Type) (prog : program S L).

Lemma run_app (s1 s2 : list choice) (st : state S L) :
  run prog (s1 ++ s2) st =
  match run prog s1 st with
  | Some st' => run prog s2 st'
  | None => None
  end.
Proof.
  revert st; induction s1 as [|ch rest IH]; intros st; simpl; [reflexivity|].
  destruct st as [c|e]; [|reflexivity].
  destruct (step prog c ch); [apply IH | reflexivity].
Qed.

Lemma reachable_trans (s0 : S) (c : config S L) (sched : list choice)
    (st : state S L) :
  reachable prog s0 (Running c) -> run prog sched (Running c) = Some st ->
  reachable prog s0 st.
Proof.
  intros (s1 & E1) E2. exists (s1 ++ sched). rewrite run_app, E1. exact E2.
Qed.

(** The main goroutine starts one goroutine per round of the first loop
    and waits for none of them. *)
Lemma main_spawns (s0 : S) (k : nat) :
  k <= bound prog ->
  run prog (repeat RunMain (2 * k)) (Running (initial L s0))
  = Some (Running (mkConfig LoopHead k (started prog k) 0 s0)).
Proof.
  induction k as [|k IH]; intros Hk; [reflexivity|].
  replace (2 * Datatypes.S k) with (2 * k + 2) by lia.
  rewrite repeat_app, run_app, IH by lia.
  simpl. unfold main_step; simpl.
  replace (k <? bound prog) with true by (symmetry; apply Nat.ltb_lt; lia).
  simpl. unfold started. rewrite seq_S, map_app. reflexivity.
Qed.


End FanOutSpawns.

Section DFFITSFacts.
Context {F : Type} `{Scalar F}.

(** [DFFITS] goes from [LeveragePoints] straight to the first loop. *)
Lemma DFFITS_start_runs (lib : Linalg F) (fitter : Fitter F) (o o1 : OLS F)
    (h : list F) :
  LeveragePoints lib o = (Ok h, o1) ->
  (0 <= n o)%Z ->
  DFFITS_start lib fitter o
  = (Ok (DFFITS_program fitter (df_data (x o)) (fitted o) h
           (repeat f0 (Z.to_nat (n o))),
         repeat f0 (Z.to_nat (n o))),
     set_n o1 (n o - 1)).
Proof.
  intros Hlev Hn.
  pose proof (LeveragePoints_keeps lib o) as Hk. rewrite Hlev in Hk.
  simpl in Hk. destruct Hk as (_ & Hn1 & _).
  unfold DFFITS_start, bind, get, lift, put, ret. rewrite Hlev.
  rewrite Hn1, (make_ok Hn). reflexivity.
Qed.


End DFFITSFacts.


Lemma LeveragePoints_o22 :
  LeveragePoints lib22 (o22 (F := float))
  = (Ok [0; 0]%float, snd (LeveragePoints lib22 (o22 (F := float)))).
Proof. vm_compute. reflexivity. Qed.



(** ** Forward-stagewise training *)

Section StagewiseFacts.
Context {F : Type} `{Scalar F}.
Variable hp : Helpers F.

Import ForwardStagewise.

(** [Standardize] and [Normalize] run through every column and keep the
    shape of the frame. *)
Lemma rescale_runs (g : list F -> list F) (df : DataFrame F) :
  exists d',
    rescale g df = (Ok tt, mkDF d' (df_cols df) (df_rows df) (df_labels df)) /\
    rows d' = rows (df_data df) /\ cols d' = cols (df_data df).
Proof.
  unfold rescale, bind, get, lift, put, Dims.
  set (d := df_data df).
  destruct (@ofold_invariant _ _
              (fun st : list F * Dense F =>
                 length (fst st) = rows d /\
                 rows (snd st) = rows d /\ cols (snd st) = cols d)
              (rescale_col g) (seq 0 (cols d)) (repeat f0 (rows d), d))
    as ([col d'] & E & _ & Hr & Hc).
  - simpl. rewrite repeat_length. auto.
  - intros [col d1] i (Hlen & Hr & Hc) Hi. simpl in Hlen, Hr, Hc.
    apply in_seq in Hi. unfold rescale_col.
    assert (Hok : col_ok d1 (Z.of_nat i) = true)
      by (apply col_ok_spec; rewrite Hc; lia).
    rewrite Col_into_full by (auto; congruence). cbn [obind].
    destruct (SetCol d1 (Z.of_nat i) (g (column d1 (Z.to_nat (Z.of_nat i)))))
      as [d2|e] eqn:E2.
    + destruct (SetCol_shape _ _ _ E2) as (Hr2 & Hc2 & _).
      eexists. split; [reflexivity|]. simpl.
      rewrite column_length. repeat split; congruence.
    + unfold SetCol in E2. rewrite Hok in E2. discriminate.
  - rewrite E. exists d'. simpl in *. auto.
Qed.

(** The loop that fills [cors] panics in its first round: [cors] has
    length 0. *)
Lemma correlations_panics (f : ForwardStage F) (y : list F) :
  1 <= df_cols (fs_x f) ->
  1 <= cols (df_data (fs_x f)) ->
  correlations hp f y = Panic ErrSliceIndex.
Proof.
  intros Hc Hd. unfold correlations.
  destruct (df_cols (fs_x f)) as [|k]; [lia|].
  simpl. unfold cors_cell, Col_nil.
  replace (col_ok (df_data (fs_x f)) (Z.of_nat 0)) with true
    by (symmetry; apply col_ok_spec; simpl; lia).
  reflexivity.
Qed.

(** The first evaluation of the guard lets the loop run. *)
Lemma isCorrelation_first (f : ForwardStage F) (y : list F) :
  firstRun f = true ->
  isCorrelation hp y f = (Ok true, set_firstRun f false).
Proof.
  intros Hfirst. unfold isCorrelation, bind, get, put, ret.
  rewrite Hfirst. reflexivity.
Qed.

(** The guard answers [false] only when the largest correlation is
    below [delta]. *)
Lemma isCorrelation_false (f f' : ForwardStage F) (y : list F) :
  isCorrelation hp y f = (Ok false, f') ->
  exists cors,
    correlations hp f y = Ok cors /\ fltb (max hp cors) (delta f) = true.
Proof.
  unfold isCorrelation, bind, get, put, ret, lift.
  destruct (firstRun f); [discriminate|].
  destruct (correlations hp f y) as [cors|e]; [|discriminate].
  destruct (fltb (max hp cors) (delta f)) eqn:E; [|discriminate].
  intros _. exists cors. auto.
Qed.

Lemma Train_setup_runs (f : ForwardStage F) (y : list F) :
  exists d' x',
    Train_setup hp y f
    = (Ok (mkLocals (subtractMean hp y) x'),
       mkFS (mkDF d' (df_cols (fs_x f)) (df_rows (fs_x f)) (df_labels (fs_x f)))
            (epsilon f) (delta f) (fs_y f)
            (rep f0 (df_cols (fs_x f))) (fs_p f) true) /\
    rows d' = rows (df_data (fs_x f)) /\ cols d' = cols (df_data (fs_x f)).
Proof.
  destruct (rescale_runs (standardize hp) (fs_x f)) as (d' & E & Hr & Hc).
  exists d'. eexists.
  unfold Train_setup, bind, on_x, Standardize, get, put, lift, ret.
  rewrite E. cbn [fs_x set_x df_rows df_cols]. unfold NewDense, rep.
  rewrite repeat_length, Nat.eqb_refl. cbn. auto.
Qed.

End StagewiseFacts.

(** C8.  The claim: every round picks the column most correlated with the
    residual, moves its coefficient by [epsilon * sign], updates the
    residual and stops once the largest correlation is below [delta].
    The code: [cors] is made with length 0 and then assigned by index, so
    on every frame with a column the first round panics with an index out
    of range, before a column is picked; the coefficients are still the
    zeros [Train] starts from. *)
Theorem Train_panics_in_first_round
    {F : Type} `{Scalar F} (hp : Helpers F) (fuel : nat) (y : list F)
    (f : ForwardStage F) :
  1 <= df_cols (fs_x f) ->
  1 <= cols (df_data (fs_x f)) ->
  exists f',
    ForwardStagewise.Train hp (Datatypes.S fuel) y f = (Panic ErrSliceIndex, f') /\
    fs_betas f' = ForwardStagewise.rep f0 (df_cols (fs_x f)).
Proof.
  intros Hc Hd.
  destruct (Train_setup_runs hp f y) as (d' & x' & E & Hr' & Hc').
  eexists. unfold ForwardStagewise.Train, bind. rewrite E.
  cbn [ForwardStagewise.Train_loop]. unfold bind at 1.
  rewrite isCorrelation_first by reflexivity.
  unfold bind at 1. unfold ForwardStagewise.Train_round, bind, get, lift.
  rewrite correlations_panics by (simpl; lia).
  split; reflexivity.
Qed.

Lemma Train_panics_on_fs345 :
  exists f',
    ForwardStagewise.Train example_helpers 1 y345 (fs345 (F := float))
      = (Panic ErrSliceIndex, f') /\
    fs_betas f' = [0; 0]%float.
Proof.
  exact (@Train_panics_in_first_round float _ example_helpers 0 y345 fs345
           (le_S 1 1 (le_n 1)) (le_S 1 1 (le_n 1))).
Defined.

Section StagewiseEndings.
Context {F : Type} `{Scalar F}.
Variable hp : Helpers F.

Import ForwardStagewise.


Lemma Train_loop_S (fuel : nat) (y : list F) (l : locals)
    (f : ForwardStage F) :
  Train_loop hp (Datatypes.S fuel) y l f =
  match isCorrelation hp (loc_r l) f with
  | (Ok true, f1) =>
      match Train_round hp y l f1 with
      | (Ok l', f2) => Train_loop hp fuel y l' f2
      | (Panic e, f2) => (Panic e, f2)
      end
  | (Ok false, f1) => (Ok (Returns None), f1)
  | (Panic e, f1) => (Panic e, f1)
  end.
Proof.
  simpl. unfold bind at 1.
  destruct (isCorrelation hp (loc_r l) f) as [[[|]|e] f1]; auto.
Qed.

(** More rounds allowed do not change how a run that ended has ended. *)
Lemma Train_loop_stable (fuel : nat) (y : list F) (l : locals)
    (f : ForwardStage F) :
  fst (Train_loop hp fuel y l f) <> Ok StillRunning ->
  Train_loop hp (Datatypes.S fuel) y l f = Train_loop hp fuel y l f.
Proof.
  revert l f; induction fuel as [|fuel IH]; intros l f Hend.
  - simpl in Hend. exfalso. apply Hend. reflexivity.
  - rewrite (Train_loop_S (Datatypes.S fuel)).
    rewrite (Train_loop_S fuel) in Hend |- *.
    destruct (isCorrelation hp (loc_r l) f) as [[[|]|e] f1]; auto.
    destruct (Train_round hp y l f1) as [[l'|e] f2]; auto.
Qed.

End StagewiseEndings.



(** ** The frames [DF] builds *)

Section FrameFacts.
Context {F : Type} `{Scalar F}.

Lemma DF_wf (values : list F) (labels : list string) (df : DataFrame F) :
  DF values labels = Ok (inl df) -> wf_df df.
Proof.
  unfold DF, NewDense.
  destruct (length labels =? 0); [discriminate|].
  destruct (negb _); [discriminate|].
  destruct (length values =? length values / length labels * length labels)
    eqn:E; [|discriminate].
  simpl. intros Heq. injection Heq as <-.
  apply Nat.eqb_eq in E. unfold wf_df, wf; simpl. auto.
Qed.

End FrameFacts.

(** C10.  On a frame as the constructors build it, [Transform(f, cols...)]
    keeps the row and column counts and every column that is not listed
    (also when it panics on an index that is not a column); when every
    listed index is a column it returns, and each value of a column has
    had [f] applied once for every time the column is listed. *)
Theorem Transform_changes_only_listed_columns
    {F : Type} `{Scalar F} (f : F -> F) (cols : list Z) (df : DataFrame F) :
  wf_df df ->
  let res := Transform f cols df in
  df_rows (snd res) = df_rows df /\
  df_cols (snd res) = df_cols df /\
  Dim (snd res) = Dim df /\
  (forall r c, r < df_rows df -> c < df_cols df ->
     ~ In (Z.of_nat c) cols ->
     entry (df_data (snd res)) r c = entry (df_data df) r c) /\
  ((forall j, In j cols -> (0 <= j < Z.of_nat (df_cols df))%Z) ->
   fst res = Ok tt /\
   forall r c, r < df_rows df -> c < df_cols df ->
     entry (df_data (snd res)) r c
     = Nat.iter (times_listed cols c) f (entry (df_data df) r c)).
Proof.
  intros Hwf res.
  destruct (Transform_entries f cols Hwf)
    as (Hwf' & Hr & Hc & _ & Hok & Hent).
  fold res in Hwf', Hr, Hc, Hok, Hent.
  split; [exact Hr|]. split; [exact Hc|]. split.
  { unfold Dim, Dims. destruct Hwf as (_ & Hr0 & Hc0).
    destruct Hwf' as (_ & Hr1 & Hc1). congruence. }
  split.
  - intros r c Hrr Hcc Hnot. rewrite Hent by assumption.
    unfold times_listed.
    rewrite (proj1 (count_occ_not_In Z.eq_dec _ _)); [reflexivity|].
    intros Hin. apply Hnot. eapply applied_incl; eauto.
  - intros Hall. pose proof (@applied_all _ _ Hall) as Eall.
    split; [apply Hok; exact Eall|].
    intros r c Hrr Hcc. rewrite Hent by assumption.
    rewrite Eall. reflexivity.
Qed.

(** The frame and the call of the repository's test [TestTransformDF]. *)
Lemma Transform_on_test_frame :
  exists df,
    DF (map (num (F := float)) [1; 2; 3; 4; 5; 6; 7; 8; 9]%Z)
       ["a"; "b"; "c"]%string = Ok (inl df) /\
    Transform (fun v => PrimFloat.add v 1) [0; 2]%Z df
    = (Ok tt, mkDF (mkDense 3 3 [2; 2; 4; 5; 5; 7; 8; 8; 10]%float) 3 3
                   ["a"; "b"; "c"]%string) /\
    forall r c, r < 3 -> c < 3 -> ~ In (Z.of_nat c) [0; 2]%Z ->
      entry (df_data (snd (Transform (fun v => PrimFloat.add v 1) [0; 2]%Z df)))
            r c
      = entry (df_data df) r c.
Proof.
  pose (df := mkDF (mkDense 3 3 [1; 2; 3; 4; 5; 6; 7; 8; 9]%float) 3 3
                   ["a"; "b"; "c"]%string).
  assert (E : DF (map (num (F := float)) [1; 2; 3; 4; 5; 6; 7; 8; 9]%Z)
                 ["a"; "b"; "c"]%string = Ok (inl df))
    by (vm_compute; reflexivity).
  exists df. split; [exact E|].
  split; [vm_compute; reflexivity|].
  exact (proj1 (proj2 (proj2 (proj2
    (@Transform_changes_only_listed_columns float _
       (fun v => PrimFloat.add v 1) [0; 2]%Z df (DF_wf _ _ E)))))).
Defined.

(* ================================================================= *)
(** * More properties of the package *)

(** ** [NewDF] *)

Section NewDFFacts.
Context {F : Type} `{Scalar F}.

Lemma append_all_length (values : list (list F)) (x0 : list F) :
  length (fold_left (fun x d => x ++ d) values x0)
  = length x0 + length (concat values).
Proof.
  revert x0; induction values as [|d rest IH]; intros x0; simpl.
  - lia.
  - rewrite IH, !length_app. lia.
Qed.

Lemma append_all_concat (values : list (list F)) (x0 : list F) :
  fold_left (fun x d => x ++ d) values x0 = x0 ++ concat values.
Proof.
  revert x0; induction values as [|d rest IH]; intros x0; simpl.
  - rewrite app_nil_r. reflexivity.
  - rewrite IH, app_assoc. reflexivity.
Qed.

End NewDFFacts.

(** What [NewDF] does with a list that has a first inner slice: the
    slice it hands to [NewDense] holds [cols * rows] zeros and then the
    values, and [NewDense] accepts it only when there are no values. *)
Lemma NewDF_cons
    {F : Type} `{Scalar F} (d : list F) (rest : list (list F)) :
  NewDF (d :: rest) =
  if length (concat (d :: rest)) =? 0
  then Ok (mkDF (mkDense (length d) (S (length rest))
                   (repeat f0 (S (length rest) * length d)
                    ++ concat (d :: rest)))
                (S (length rest)) (length d) [])
  else Panic ErrShape.
Proof.
  unfold NewDF, index, NewDense. cbn [nth_error obind].
  rewrite append_all_concat, length_app, repeat_length.
  cbn [length].
  destruct (Nat.eqb_spec (length (concat (d :: rest))) 0) as [E|E].
  - rewrite E, Nat.add_0_r, (Nat.mul_comm (length d)), Nat.eqb_refl.
    reflexivity.
  - replace (_ =? _) with false; [reflexivity|].
    symmetry. apply Nat.eqb_neq. rewrite (Nat.mul_comm (length d)). lia.
Qed.

(** [NewDF] appends the values to a slice that already holds
    [cols * rows] zeros, so the slice is too long for [NewDense] as soon
    as the first inner slice holds a value: the constructor panics. *)
Theorem NewDF_panics_on_values
    {F : Type} `{Scalar F} (d : list F) (rest : list (list F)) :
  0 < length d -> NewDF (d :: rest) = Panic ErrShape.
Proof.
  intros Hd. rewrite NewDF_cons.
  replace (length (concat (d :: rest)) =? 0) with false; [reflexivity|].
  symmetry. apply Nat.eqb_neq. cbn [concat]. rewrite length_app. lia.
Qed.

(** The first two rows of the data of the repository's tests. *)
Lemma NewDF_panics_on_test_rows :
  NewDF [[num 80; num 27; num 89]; [num 80; num 27; num 88]]
  = Panic (A := DataFrame float) ErrShape.
Proof.
  apply (@NewDF_panics_on_values float _). simpl. lia.
Defined.

(** When [NewDF] returns, the frame holds no value: every inner slice
    was empty, and the frame has no rows. *)
Theorem NewDF_returns_only_empty_frames
    {F : Type} `{Scalar F} (values : list (list F)) (df : DataFrame F) :
  NewDF values = Ok df ->
  concat values = [] /\ df_rows df = 0 /\ df_cols df = length values /\
  data (df_data df) = [] /\ Dim df = (0, length values).
Proof.
  destruct values as [|d rest]; [discriminate|].
  rewrite NewDF_cons.
  destruct (Nat.eqb_spec (length (concat (d :: rest))) 0) as [E|E];
    [|discriminate].
  apply length_zero_iff_nil in E. intros Heq. injection Heq as <-.
  rewrite E. cbn [concat] in E. apply app_eq_nil in E.
  destruct E as (-> & Erest).
  cbn [length df_rows df_cols df_data data Dim Dims rows cols].
  rewrite Nat.mul_0_r. simpl. rewrite Erest. repeat split.
Qed.

Lemma NewDF_of_empty_slices :
  NewDF [[]; []] = Ok (mkDF (mkDense 0 2 []) 2 0 []) /\
  concat [[]; []] = ([] : list float) /\
  df_rows (mkDF (mkDense 0 2 ([] : list float)) 2 0 []) = 0 /\
  df_cols (mkDF (mkDense 0 2 ([] : list float)) 2 0 []) = 2 /\
  data (df_data (mkDF (mkDense 0 2 ([] : list float)) 2 0 [])) = [] /\
  Dim (mkDF (mkDense 0 2 ([] : list float)) 2 0 []) = (0, 2).
Proof.
  split; [reflexivity|].
  exact (@NewDF_returns_only_empty_frames float _ [[]; []]
           (mkDF (mkDense 0 2 []) 2 0 []) eq_refl).
Defined.

(** ** [DF] *)

(** With labels and a number of values that is a multiple of the number
    of labels, [DF] builds the frame whose row [r] is the [r]-th block of
    [len(labels)] values: the data slice, the labels and the dimensions
    are the ones given. *)
Theorem DF_builds_row_major_frame
    {F : Type} `{Scalar F} (values : list F) (labels : list string) :
  0 < length labels ->
  length values mod length labels = 0 ->
  exists df,
    DF values labels = Ok (inl df) /\
    df_labels df = labels /\
    df_cols df = length labels /\
    df_rows df = length values / length labels /\
    Dim df = (length values / length labels, length labels) /\
    data (df_data df) = values /\
    wf_df df /\
    forall r c, c < length labels ->
      entry (df_data df) r c = nth (r * length labels + c) values f0.
Proof.
  intros Hl Hm. unfold DF, NewDense.
  destruct (length labels =? 0) eqn:E0; [apply Nat.eqb_eq in E0; lia|].
  rewrite Hm. cbn [Nat.eqb negb].
  assert (Hlen : length values
                 = length values / length labels * length labels).
  { pose proof (Nat.div_mod_eq (length values) (length labels)). lia. }
  replace (length values =? _) with true
    by (symmetry; apply Nat.eqb_eq; exact Hlen).
  cbn [obind]. eexists. split; [reflexivity|].
  unfold wf_df, wf, Dim, Dims, entry; simpl.
  repeat split; auto.
Qed.

(** The frame of [TestMakeDF]. *)
Lemma DF_builds_test_frame :
  exists df : DataFrame float,
    DF [frac 11 10; frac 22 10; frac 33 10;
        frac 44 10; frac 55 10; frac 66 10;
        frac 77 10; frac 88 10; frac 99 10]
       ["a"%string; EmptyString; "c"%string]
    = Ok (inl df) /\
    df_rows df = 3 /\ df_cols df = 3 /\
    Dim df = (3, 3) /\
    entry (df_data df) 1 0 = frac 44 10.
Proof.
  destruct (@DF_builds_row_major_frame float _
              [frac 11 10; frac 22 10; frac 33 10;
               frac 44 10; frac 55 10; frac 66 10;
               frac 77 10; frac 88 10; frac 99 10]
              ["a"%string; EmptyString; "c"%string])
    as (df & E & _ & Hc & Hr & Hd & _ & _ & He).
  - simpl. lia.
  - reflexivity.
  - exists df. split; [exact E|]. split; [exact Hr|]. split; [exact Hc|].
    split; [exact Hd|].
    rewrite He by (simpl; lia). reflexivity.
Defined.

(** With labels, [DF] answers [DimensionError] (and no frame) exactly
    when the number of values is not a multiple of the number of labels;
    it never panics then. *)
Theorem DF_dimension_error
    {F : Type} `{Scalar F} (values : list F) (labels : list string) :
  0 < length labels ->
  (DF values labels = Ok (inr DimensionError)
   <-> length values mod length labels <> 0) /\
  (forall e, DF values labels = Ok (inr e) -> e = DimensionError) /\
  (forall msg, DF values labels = Panic msg -> False).
Proof.
  intros Hl. unfold DF, NewDense.
  destruct (length labels =? 0) eqn:E0; [apply Nat.eqb_eq in E0; lia|].
  destruct (length values mod length labels =? 0) eqn:Em; cbn [negb].
  - apply Nat.eqb_eq in Em.
    assert (Hlen : length values
                   = length values / length labels * length labels).
    { pose proof (Nat.div_mod_eq (length values) (length labels)). lia. }
    replace (length values =? _) with true
      by (symmetry; apply Nat.eqb_eq; exact Hlen).
    cbn [obind]. repeat split; try discriminate. intros Hn. lia.
  - apply Nat.eqb_neq in Em. repeat split; auto; try discriminate.
    intros e He. injection He as <-. reflexivity.
Qed.

Lemma DF_dimension_error_on_four_values :
  @DF float _ [num 1; num 2; num 3; num 4] ["a"; "b"; "c"]%string
  = Ok (inr DimensionError).
Proof.
  apply (proj2 (proj1 (@DF_dimension_error float _
                  [num 1; num 2; num 3; num 4] ["a"; "b"; "c"]%string
                  ltac:(simpl; lia)))).
  simpl. discriminate.
Defined.

(** Without labels the remainder [ents % cols] divides by zero. *)
Theorem DF_without_labels_panics
    {F : Type} `{Scalar F} (values : list F) :
  DF values [] = Panic ErrDivideByZero.
Proof. reflexivity. Qed.

(** ** [Transform] *)

(** Transforming the columns [c1 ++ c2] is transforming [c1] and then
    [c2], panic included: a panic in [c1] leaves the frame as the rounds
    before it made it and [c2] is not started. *)
Theorem Transform_app
    {F : Type} `{Scalar F} (f : F -> F) (c1 c2 : list Z) (df : DataFrame F) :
  Transform f (c1 ++ c2) df
  = (Transform f c1 ;;; Transform f c2)%monad df.
Proof.
  revert df; induction c1 as [|c c1 IH]; intros df; simpl.
  - reflexivity.
  - unfold bind.
    destruct (Transform_col f c df) as [[u|e] df1]; [apply IH|reflexivity].
Qed.

(** ** [Apply] *)

Section ApplyFacts.
Context {F : Type} `{Scalar F}.

Lemma upd_app_here (done t : list F) (v w : F) :
  upd (done ++ v :: t) (length done) w = done ++ w :: t.
Proof.
  induction done as [|h done IH]; simpl; [reflexivity|].
  rewrite IH. reflexivity.
Qed.

Lemma assign_next (done : list F) (k : nat) (w : F) :
  assign (done ++ repeat f0 (S k)) (length done) w
  = Ok ((done ++ [w]) ++ repeat f0 k).
Proof.
  unfold assign. rewrite length_app, repeat_length.
  replace (length done <? length done + S k) with true
    by (symmetry; apply Nat.ltb_lt; lia).
  simpl repeat. rewrite upd_app_here, <- app_assoc. reflexivity.
Qed.

(** The loop of [applyCols] and [applyRows] over indices whose round
    stores [g idx] at its position. *)
Lemma apply_loop (body : list F -> nat * Z -> outcome (list F))
    (g : Z -> F) (l : list Z) (done : list F) :
  (forall out i j, In j l -> body out (i, j) = assign out i (g j)) ->
  ofold body (combine (seq (length done) (length l)) l)
        (done ++ repeat f0 (length l))
  = Ok (done ++ map g l).
Proof.
  revert done; induction l as [|j l IH]; intros done Hbody.
  - simpl. reflexivity.
  - cbn [length seq combine ofold map].
    rewrite Hbody by (left; reflexivity).
    rewrite assign_next. cbn [obind].
    replace (S (length done)) with (length (done ++ [g j]))
      by (rewrite length_app; simpl; lia).
    rewrite IH by (intros; apply Hbody; right; assumption).
    rewrite <- app_assoc. reflexivity.
Qed.

(** The same loop when the round of [j] panics after the rounds of
    [pre]. *)
Lemma apply_loop_panics (body : list F -> nat * Z -> outcome (list F))
    (g : Z -> F) (pre post : list Z) (j : Z) (e : string) (done : list F) :
  (forall out i x, In x pre -> body out (i, x) = assign out i (g x)) ->
  (forall out i, body out (i, j) = Panic e) ->
  ofold body
        (combine (seq (length done) (length (pre ++ j :: post)))
                 (pre ++ j :: post))
        (done ++ repeat f0 (length (pre ++ j :: post)))
  = Panic e.
Proof.
  revert done; induction pre as [|x pre IH]; intros done Hpre Hj.
  - cbn [app length seq combine ofold]. rewrite Hj. reflexivity.
  - cbn [app length seq combine ofold].
    rewrite Hpre by (left; reflexivity).
    rewrite assign_next. cbn [obind].
    replace (S (length done)) with (length (done ++ [g x]))
      by (rewrite length_app; simpl; lia).
    apply IH; [|exact Hj].
    intros; apply Hpre; right; assumption.
Qed.

Lemma row_ok_spec (m : Dense F) i :
  row_ok m i = true <-> (0 <= i < Z.of_nat (rows m))%Z.
Proof.
  unfold row_ok. rewrite andb_true_iff, Z.leb_le, Z.ltb_lt. tauto.
Qed.

Lemma applyCols_cell_runs (f : list F -> F) (df : DataFrame F) out i j :
  df_cols df = cols (df_data df) ->
  (0 <= j < Z.of_nat (df_cols df))%Z ->
  applyCols_cell f df out (i, j)
  = assign out i (f (column (df_data df) (Z.to_nat j))).
Proof.
  intros Hc Hj. unfold applyCols_cell, Col_nil.
  replace (Z.of_nat (df_cols df) <? j)%Z with false
    by (symmetry; apply Z.ltb_ge; lia).
  replace (col_ok (df_data df) j) with true
    by (symmetry; apply col_ok_spec; rewrite <- Hc; exact Hj).
  reflexivity.
Qed.

Lemma applyRows_cell_runs (f : list F -> F) (df : DataFrame F) out i j :
  df_rows df = rows (df_data df) ->
  (0 <= j < Z.of_nat (df_rows df))%Z ->
  applyRows_cell f df out (i, j)
  = assign out i (f (row (df_data df) (Z.to_nat j))).
Proof.
  intros Hc Hj. unfold applyRows_cell, Row_nil.
  replace (Z.of_nat (df_rows df) <? j)%Z with false
    by (symmetry; apply Z.ltb_ge; lia).
  replace (row_ok (df_data df) j) with true
    by (symmetry; apply row_ok_spec; rewrite <- Hc; exact Hj).
  reflexivity.
Qed.

Lemma applyCols_cell_panics (f : list F -> F) (df : DataFrame F) out i j :
  df_cols df = cols (df_data df) ->
  (j < 0 \/ Z.of_nat (df_cols df) <= j)%Z ->
  applyCols_cell f df out (i, j)
  = Panic (if (Z.of_nat (df_cols df) <? j)%Z then Wtf
           else ErrIndexOutOfRange).
Proof.
  intros Hc Hj. unfold applyCols_cell, Col_nil.
  destruct (Z.of_nat (df_cols df) <? j)%Z eqn:E; [reflexivity|].
  apply Z.ltb_ge in E.
  replace (col_ok (df_data df) j) with false; [reflexivity|].
  symmetry. apply not_true_is_false. rewrite col_ok_spec, <- Hc. lia.
Qed.

Lemma applyRows_cell_panics (f : list F -> F) (df : DataFrame F) out i j :
  df_rows df = rows (df_data df) ->
  (j < 0 \/ Z.of_nat (df_rows df) <= j)%Z ->
  applyRows_cell f df out (i, j)
  = Panic (if (Z.of_nat (df_rows df) <? j)%Z then Wtf
           else ErrIndexOutOfRange).
Proof.
  intros Hc Hj. unfold applyRows_cell, Row_nil.
  destruct (Z.of_nat (df_rows df) <? j)%Z eqn:E; [reflexivity|].
  apply Z.ltb_ge in E.
  replace (row_ok (df_data df) j) with false; [reflexivity|].
  symmetry. apply not_true_is_false. rewrite row_ok_spec, <- Hc. lia.
Qed.

Lemma applyCols_runs (f : list F -> F) (idxs : list Z) (df : DataFrame F) :
  df_cols df = cols (df_data df) ->
  length idxs <= df_cols df ->
  Forall (fun j => (0 <= j < Z.of_nat (df_cols df))%Z) idxs ->
  applyCols f idxs df
  = Ok (map (fun j => f (column (df_data df) (Z.to_nat j))) idxs).
Proof.
  intros Hc Hlen Hall. unfold applyCols.
  replace (df_cols df <? length idxs) with false
    by (symmetry; apply Nat.ltb_ge; exact Hlen).
  apply (apply_loop (applyCols_cell f df)
           (fun j => f (column (df_data df) (Z.to_nat j))) idxs []).
  intros out i j Hin. apply applyCols_cell_runs; [exact Hc|].
  rewrite Forall_forall in Hall. apply Hall, Hin.
Qed.

End ApplyFacts.

(** With [margin] set, no more indices than columns and every index a
    column, [Apply] returns [f] of each listed column, in the order
    listed. *)
Theorem Apply_on_columns
    {F : Type} `{Scalar F} (f : list F -> F) (idxs : list Z)
    (df : DataFrame F) :
  df_cols df = cols (df_data df) ->
  length idxs <= df_cols df ->
  Forall (fun j => (0 <= j < Z.of_nat (df_cols df))%Z) idxs ->
  Apply f true idxs df
  = Ok (map (fun j => f (column (df_data df) (Z.to_nat j))) idxs).
Proof.
  intros Hc Hlen Hall. unfold Apply. apply applyCols_runs; assumption.
Qed.

Lemma Apply_on_columns_of_latin_square :
  Apply fsum true [0; 1; 2]%Z latin_square = Ok [num 6; num 6; num 6].
Proof.
  rewrite (@Apply_on_columns float _ fsum [0; 1; 2]%Z latin_square).
  - vm_compute. reflexivity.
  - reflexivity.
  - simpl. lia.
  - repeat constructor; simpl; lia.
Defined.

(** Without [margin], no more indices than rows and every index a row,
    [Apply] returns [f] of each listed row, in the order listed. *)
Theorem Apply_on_rows
    {F : Type} `{Scalar F} (f : list F -> F) (idxs : list Z)
    (df : DataFrame F) :
  df_rows df = rows (df_data df) ->
  length idxs <= df_rows df ->
  Forall (fun j => (0 <= j < Z.of_nat (df_rows df))%Z) idxs ->
  Apply f false idxs df
  = Ok (map (fun j => f (row (df_data df) (Z.to_nat j))) idxs).
Proof.
  intros Hc Hlen Hall. unfold Apply, applyRows.
  replace (df_rows df <? length idxs) with false
    by (symmetry; apply Nat.ltb_ge; exact Hlen).
  apply (apply_loop (applyRows_cell f df)
           (fun j => f (row (df_data df) (Z.to_nat j))) idxs []).
  intros out i j Hin. apply applyRows_cell_runs; [exact Hc|].
  rewrite Forall_forall in Hall. apply Hall, Hin.
Qed.

Lemma Apply_on_rows_of_latin_square :
  Apply fsum false [2; 0]%Z latin_square = Ok [num 6; num 6].
Proof.
  rewrite (@Apply_on_rows float _ fsum [2; 0]%Z latin_square).
  - vm_compute. reflexivity.
  - reflexivity.
  - simpl. lia.
  - repeat constructor; simpl; lia.
Defined.

(** The guard of the loops is [idx > count], not [idx >= count]: at the
    first index that is no column (no row), [Apply] panics with the
    package's own message only when the index is greater than the count;
    an index equal to the count, or a negative one, reaches gonum, which
    panics with its index error. *)
Theorem Apply_panics_at_first_bad_index
    {F : Type} `{Scalar F} (f : list F -> F) (margin : bool)
    (pre post : list Z) (j : Z) (df : DataFrame F) :
  df_cols df = cols (df_data df) ->
  df_rows df = rows (df_data df) ->
  let count := if margin then df_cols df else df_rows df in
  length (pre ++ j :: post) <= count ->
  Forall (fun x => (0 <= x < Z.of_nat count)%Z) pre ->
  (j < 0 \/ Z.of_nat count <= j)%Z ->
  Apply f margin (pre ++ j :: post) df
  = Panic (if (Z.of_nat count <? j)%Z then Wtf else ErrIndexOutOfRange).
Proof.
  intros Hc Hr count Hlen Hall Hj. rewrite Forall_forall in Hall.
  unfold Apply. destruct margin; subst count.
  - unfold applyCols.
    replace (df_cols df <? _) with false
      by (symmetry; apply Nat.ltb_ge; exact Hlen).
    apply (apply_loop_panics (applyCols_cell f df)
             (fun x => f (column (df_data df) (Z.to_nat x)))
             pre post j []).
    + intros out i x Hin. apply applyCols_cell_runs; auto.
    + intros out i. apply applyCols_cell_panics; auto.
  - unfold applyRows.
    replace (df_rows df <? _) with false
      by (symmetry; apply Nat.ltb_ge; exact Hlen).
    apply (apply_loop_panics (applyRows_cell f df)
             (fun x => f (row (df_data df) (Z.to_nat x)))
             pre post j []).
    + intros out i x Hin. apply applyRows_cell_runs; auto.
    + intros out i. apply applyRows_cell_panics; auto.
Qed.

Lemma Apply_panics_in_gonum_on_latin_square :
  Apply fsum true [0; 3]%Z latin_square = Panic ErrIndexOutOfRange.
Proof.
  apply (@Apply_panics_at_first_bad_index float _ fsum true
           [0%Z] [] 3%Z latin_square).
  - reflexivity.
  - reflexivity.
  - simpl. lia.
  - repeat constructor; simpl; lia.
  - simpl. lia.
Defined.

(** ** [StudentizedResiduals] *)

Section StudentizedFacts.
Context {F : Type} `{Scalar F}.

(** The loop of [StudentizedResiduals] over its first [m] rounds. *)
Lemma Studentized_loop (o : OLS F) (sigma : F) (h t0 : list F) (m : nat) :
  m <= length t0 -> m <= length (residuals o) -> m <= length h ->
  exists t,
    ofold (Studentized_cell o sigma h) (seq 0 m) t0 = Ok t /\
    length t = length t0 /\
    (forall i, i < m ->
       nth i t f0 = fdiv (nth i (residuals o) f0)
                         (fmul sigma (fsqrt (fsub f1 (nth i h f0))))) /\
    (forall i, m <= i -> nth i t f0 = nth i t0 f0).
Proof.
  induction m as [|m IH]; intros Hp Hr Hh.
  - exists t0. simpl. repeat split; auto. intros i Hi. lia.
  - destruct IH as (t & E & Hlen & Hlow & Hhigh); try lia.
    rewrite seq_S, ofold_app, E. simpl.
    unfold Studentized_cell.
    rewrite (index_nth (residuals o) f0), (index_nth h f0) by lia.
    simpl. unfold assign.
    replace (m <? length t) with true
      by (symmetry; apply Nat.ltb_lt; lia).
    eexists. split; [reflexivity|].
    rewrite upd_length. split; [exact Hlen|]. split.
    + intros i Hi. rewrite nth_upd.
      destruct (Nat.eqb_spec i m) as [->|Hne].
      * replace (m <? length t) with true
          by (symmetry; apply Nat.ltb_lt; lia).
        reflexivity.
      * simpl. apply Hlow. lia.
    + intros i Hi. rewrite nth_upd.
      replace (i =? m) with false by (symmetry; apply Nat.eqb_neq; lia).
      simpl. apply Hhigh. lia.
Qed.

End StudentizedFacts.

(** Whenever [LeveragePoints] returns [h], [StudentizedResiduals] returns
    [residual_i / (sigma * sqrt (1 - h_i))] for every observation, with
    [sigma] the deviation of the residuals, and leaves the model as
    [LeveragePoints] left it. *)
Theorem StudentizedResiduals_formula
    {F : Type} `{Scalar F} (Sd : list F -> F) (lib : Linalg F)
    (o o' : OLS F) (h : list F) :
  LeveragePoints lib o = (Ok h, o') ->
  (0 <= n o)%Z ->
  Z.to_nat (n o) <= length (residuals o) ->
  Z.to_nat (n o) <= length h ->
  exists t,
    StudentizedResiduals Sd lib o = (Ok t, o') /\
    length t = Z.to_nat (n o) /\
    forall i, i < Z.to_nat (n o) ->
      nth i t f0
      = fdiv (nth i (residuals o) f0)
             (fmul (Sd (residuals o)) (fsqrt (fsub f1 (nth i h f0)))).
Proof.
  intros Hlev Hn Hr Hh.
  pose proof (LeveragePoints_keeps lib o) as Hk. rewrite Hlev in Hk.
  simpl in Hk. destruct Hk as (_ & Hn' & _ & Hres & _).
  unfold StudentizedResiduals, bind, get, lift.
  rewrite (make_ok Hn), Hlev.
  unfold upto. rewrite Hn'.
  destruct (@Studentized_loop F _ o' (Sd (residuals o)) h
              (repeat f0 (Z.to_nat (n o))) (Z.to_nat (n o)))
    as (t & E & Hlen & Hlow & _);
    rewrite ?repeat_length, ?Hres; auto.
  exists t. rewrite E. rewrite repeat_length in Hlen.
  rewrite Hres in Hlow. auto.
Qed.

Lemma StudentizedResiduals_formula_on_o22 :
  exists t,
    StudentizedResiduals deviation lib22 (o22 (F := float))
      = (Ok t, snd (LeveragePoints lib22 (o22 (F := float)))) /\
    length t = 2 /\
    forall i, i < 2 ->
      nth i t 0%float
      = PrimFloat.div (nth i (residuals (o22 (F := float))) 0%float)
          (PrimFloat.mul (deviation (residuals (o22 (F := float))))
             (PrimFloat.sqrt (PrimFloat.sub 1 (nth i [0; 0]%float 0%float)))).
Proof.
  assert (E : LeveragePoints lib22 (o22 (F := float))
              = (Ok [0; 0]%float, snd (LeveragePoints lib22 (o22 (F := float)))))
    by (vm_compute; reflexivity).
  exact (@StudentizedResiduals_formula float _ deviation lib22 o22 _
           [0; 0]%float E Z.le_0_2 (le_n 2) (le_n 2)).
Defined.



(** ** [Standardize] and [Normalize] *)

Section RescaleFacts.
Context {F : Type} `{Scalar F}.

Import ForwardStagewise.

Lemma SetCol_entry_any (m m' : Dense F) j src r c :
  wf m -> SetCol m j src = Ok m' -> r < rows m -> c < cols m ->
  entry m' r c =
  if (c =? Z.to_nat j) && (r <? length src) then nth r src f0
  else entry m r c.
Proof.
  intros Hwf E Hr Hc. unfold SetCol in E.
  destruct (col_ok m j) eqn:Hj; [|discriminate].
  injection E as <-. apply col_ok_spec in Hj.
  unfold entry; simpl. unfold wf in Hwf.
  rewrite nth_setcol_data.
  - replace (r <? Nat.min (length src) (rows m)) with (r <? length src);
      [reflexivity|].
    destruct (Nat.ltb_spec r (length src));
      [symmetry; apply Nat.ltb_lt|symmetry; apply Nat.ltb_ge]; lia.
  - lia.
  - exact Hc.
  - rewrite Hwf. apply Nat.mul_le_mono_r. lia.
Qed.

(** The loop of [Standardize] and [Normalize] over its first [k]
    columns: every round reads a column that is still as it was. *)
Lemma rescale_loop (g : list F -> list F) (d : Dense F) (k : nat) :
  wf d -> k <= cols d ->
  exists col d',
    ofold (rescale_col g) (seq 0 k) (repeat f0 (rows d), d) = Ok (col, d') /\
    length col = rows d /\
    rows d' = rows d /\ cols d' = cols d /\ wf d' /\
    forall r c, r < rows d -> c < cols d ->
      entry d' r c =
      if c <? k
      then let nc := g (column d c) in
           if r <? length nc then nth r nc f0 else entry d r c
      else entry d r c.
Proof.
  intros Hwf. induction k as [|k IH]; intros Hk.
  - exists (repeat f0 (rows d)), d. simpl. rewrite repeat_length.
    repeat split; auto.
  - destruct IH as (col & d1 & E & Hlen & Hr1 & Hc1 & Hwf1 & Hent); [lia|].
    rewrite seq_S, ofold_app, E. simpl. unfold rescale_col.
    assert (Hok : col_ok d1 (Z.of_nat k) = true)
      by (apply col_ok_spec; rewrite Hc1; lia).
    rewrite Col_into_full by (auto; congruence). cbn [obind].
    rewrite Nat2Z.id.
    assert (Hcol : column d1 k = column d k).
    { unfold column. rewrite Hr1. apply map_ext_in. intros r Hin.
      apply in_seq in Hin. rewrite Hent by lia.
      replace (k <? k) with false by (symmetry; apply Nat.ltb_ge; lia).
      reflexivity. }
    rewrite Hcol.
    destruct (SetCol d1 (Z.of_nat k) (g (column d k))) as [d2|e] eqn:E2;
      [|unfold SetCol in E2; rewrite Hok in E2; discriminate].
    destruct (SetCol_shape _ _ _ E2) as (Hr2 & Hc2 & Hwf2).
    exists (column d k), d2. cbn [obind]. split; [reflexivity|].
    rewrite column_length.
    repeat split; try congruence; auto.
    intros r c Hr Hc.
    rewrite (@SetCol_entry_any d1 d2 (Z.of_nat k) (g (column d k)) r c
               Hwf1 E2) by lia.
    rewrite Nat2Z.id, Hent by assumption.
    destruct (Nat.eqb_spec c k) as [->|Hne]; cbn [andb].
    + replace (k <? S k) with true by (symmetry; apply Nat.ltb_lt; lia).
      replace (k <? k) with false by (symmetry; apply Nat.ltb_ge; lia).
      cbv zeta. destruct (r <? length (g (column d k))); reflexivity.
    + destruct (Nat.ltb_spec c k) as [Hlt|Hge].
      * replace (c <? S k) with true by (symmetry; apply Nat.ltb_lt; lia).
        reflexivity.
      * replace (c <? S k) with false by (symmetry; apply Nat.ltb_ge; lia).
        reflexivity.
Qed.

Lemma rescale_entries (g : list F -> list F) (df : DataFrame F) :
  wf (df_data df) ->
  exists d',
    rescale g df = (Ok tt, mkDF d' (df_cols df) (df_rows df) (df_labels df)) /\
    rescaled_by g (df_data df) d'.
Proof.
  intros Hwf.
  destruct (rescale_loop g Hwf (le_n (cols (df_data df))))
    as (col & d' & E & _ & Hr & Hc & Hwf' & Hent).
  exists d'. unfold rescale, bind, get, lift, put, Dims. rewrite E.
  split; [reflexivity|]. unfold rescaled_by. repeat split; auto.
  intros r c Hr' Hc'. rewrite Hent by assumption.
  replace (c <? cols (df_data df)) with true
    by (symmetry; apply Nat.ltb_lt; exact Hc').
  reflexivity.
Qed.

End RescaleFacts.

(** [Standardize] and [Normalize] never panic on a frame whose matrix
    fills its slice; they keep the counts and the labels, and each column
    of the result is what the helper makes of that column of the frame
    as it was before the call: no round reads a column another round has
    written. *)
Theorem Standardize_and_Normalize_rescale_columns
    {F : Type} `{Scalar F} (hp : Helpers F) (df : DataFrame F) :
  wf (df_data df) ->
  (exists d',
     ForwardStagewise.Standardize hp df
     = (Ok tt, mkDF d' (df_cols df) (df_rows df) (df_labels df)) /\
     rescaled_by (standardize hp) (df_data df) d') /\
  (exists d',
     ForwardStagewise.Normalize hp df
     = (Ok tt, mkDF d' (df_cols df) (df_rows df) (df_labels df)) /\
     rescaled_by (normalize hp) (df_data df) d').
Proof.
  intros Hwf. split; apply rescale_entries; exact Hwf.
Qed.

Lemma Standardize_and_Normalize_on_latin_square :
  wf (df_data latin_square) /\
  (exists d',
     ForwardStagewise.Standardize example_helpers latin_square
     = (Ok tt, mkDF d' 3 3 ["a"; "b"; "c"]%string) /\
     rescaled_by (standardize example_helpers) (df_data latin_square) d') /\
  (exists d',
     ForwardStagewise.Normalize example_helpers latin_square
     = (Ok tt, mkDF d' 3 3 ["a"; "b"; "c"]%string) /\
     rescaled_by (normalize example_helpers) (df_data latin_square) d').
Proof.
  split; [reflexivity|].
  exact (@Standardize_and_Normalize_rescale_columns float _ example_helpers
           latin_square eq_refl).
Defined.

(** ** [isCorrelation] *)

(** On a frame with a column the guard of the loop of [Train] never
    answers [false]: the first call answers [true] and clears [firstRun],
    every later call panics where it assigns to the empty [cors]. *)
Theorem isCorrelation_true_or_panic
    {F : Type} `{Scalar F} (hp : Helpers F) (y : list F)
    (f : ForwardStage F) :
  1 <= df_cols (fs_x f) ->
  1 <= cols (df_data (fs_x f)) ->
  ForwardStagewise.isCorrelation hp y f
  = if firstRun f then (Ok true, ForwardStagewise.set_firstRun f false)
    else (Panic ErrSliceIndex, f).
Proof.
  intros Hc Hd. destruct (firstRun f) eqn:Hfirst.
  - apply isCorrelation_first. exact Hfirst.
  - unfold ForwardStagewise.isCorrelation, bind, get, lift.
    rewrite Hfirst, (correlations_panics hp f y Hc Hd). reflexivity.
Qed.

Lemma isCorrelation_panics_on_fs345 :
  ForwardStagewise.isCorrelation example_helpers y345 (fs345 (F := float))
  = (Panic ErrSliceIndex, fs345).
Proof.
  exact (@isCorrelation_true_or_panic float _ example_helpers y345 fs345
           (le_S 1 1 (le_n 1)) (le_S 1 1 (le_n 1))).
Defined.

(** ** [VarianceInflationFactors]: the columns zeroed so far *)

Section VIFZeroes.
Context {F : Type} `{Scalar F}.

Lemma mfold_app {S A B} (body : A -> B -> M S A) (l1 l2 : list B) (a : A)
    (s : S) :
  mfold body (l1 ++ l2) a s =
  match mfold body l1 a s with
  | (Ok a1, s1) => mfold body l2 a1 s1
  | (Panic e, s1) => (Panic e, s1)
  end.
Proof.
  revert a s; induction l1 as [|b t IH]; intros a s; simpl; [reflexivity|].
  unfold bind.
  destruct (body a b s) as [[a'|e] s']; [apply IH | reflexivity].
Qed.

Lemma zero_columns_0 (d : Dense F) : wf d -> zero_columns 0 d = d.
Proof.
  intros Hwf. apply dense_ext; [apply tabulate_wf | exact Hwf |].
  unfold same_entries, zero_columns.
  rewrite rows_tabulate, cols_tabulate. repeat split.
  intros i j Hi Hj. rewrite entry_tabulate by assumption. reflexivity.
Qed.

Lemma nth_repeat_zero (k r : nat) : nth r (repeat (f0 : F) k) f0 = f0.
Proof.
  revert r; induction k as [|k IH]; intros [|r]; simpl; auto.
Qed.

Lemma SetCol_zero_column (d0 d : Dense F) (k : nat) :
  SetCol (zero_columns k d0) (Z.of_nat k) (repeat f0 (rows d0)) = Ok d ->
  d = zero_columns (S k) d0.
Proof.
  intros E.
  assert (Hwf : wf (zero_columns k d0)) by apply tabulate_wf.
  destruct (SetCol_shape _ _ _ E) as (Hr & Hc & Hwf').
  unfold zero_columns in Hr, Hc. rewrite rows_tabulate in Hr.
  rewrite cols_tabulate in Hc.
  apply dense_ext; [auto | apply tabulate_wf |].
  unfold same_entries. unfold zero_columns at 1 2.
  rewrite rows_tabulate, cols_tabulate. repeat split; auto.
  intros i j Hi Hj. rewrite Hr in Hi. rewrite Hc in Hj.
  rewrite (@SetCol_entry _ _ (zero_columns k d0) d (Z.of_nat k)
             (repeat f0 (rows d0)) i j Hwf E)
    by (unfold zero_columns; rewrite ?rows_tabulate, ?cols_tabulate,
          ?repeat_length; auto).
  rewrite Nat2Z.id, nth_repeat_zero.
  unfold zero_columns. rewrite !entry_tabulate by assumption.
  destruct (Nat.eqb_spec j k) as [->|Hne].
  - replace (k <? S k) with true by (symmetry; apply Nat.ltb_lt; lia).
    reflexivity.
  - destruct (Nat.ltb_spec j k).
    + replace (j <? S k) with true by (symmetry; apply Nat.ltb_lt; lia).
      reflexivity.
    + replace (j <? S k) with false by (symmetry; apply Nat.ltb_ge; lia).
      reflexivity.
Qed.

(** Round [k] on a design whose first [k] columns are zeroed: it zeroes
    column [k] as well, unless it panics before it writes. *)
Lemma VIF_round_zeroes (fitter : Fitter F) (d0 : Dense F) (vifs : list F)
    (k : nat) (o : OLS F) :
  n o = Z.of_nat (rows d0) ->
  df_data (x o) = zero_columns k d0 ->
  n (snd (VIF_round fitter vifs k o)) = n o /\
  match fst (VIF_round fitter vifs k o) with
  | Ok _ => df_data (x (snd (VIF_round fitter vifs k o)))
            = zero_columns (S k) d0
  | Panic e =>
      (df_data (x (snd (VIF_round fitter vifs k o))) = zero_columns k d0 /\
       e <> VIFError) \/
      df_data (x (snd (VIF_round fitter vifs k o))) = zero_columns (S k) d0
  end.
Proof.
  intros Hn Hd. unfold VIF_round, bind, get, lift, put, train, panic.
  destruct (Col_nil (df_data (x o)) (Z.of_nat k)) as [col|e] eqn:E1.
  2:{ simpl. split; [reflexivity|]. left. split; [exact Hd|].
      unfold Col_nil in E1. destruct (col_ok _ _); [discriminate|].
      injection E1 as <-. discriminate. }
  replace (Rep f0 (n o)) with (Ok (repeat f0 (rows d0))).
  2:{ unfold Rep. rewrite Hn.
      replace (Z.of_nat (rows d0) <? 0)%Z with false
        by (symmetry; apply Z.ltb_ge; lia).
      rewrite Nat2Z.id. reflexivity. }
  destruct (SetCol (df_data (x o)) (Z.of_nat k) (repeat f0 (rows d0)))
    as [d|e] eqn:E3.
  2:{ simpl. split; [reflexivity|]. left. split; [exact Hd|].
      unfold SetCol in E3. destruct (col_ok _ _); [discriminate|].
      injection E3 as <-. discriminate. }
  rewrite Hd in E3. apply SetCol_zero_column in E3. subst d.
  destruct (Train fitter (set_data o (zero_columns (S k) d0)) col)
    as [[[err|]|e] ft]; simpl.
  - split; [reflexivity|]. right. reflexivity.
  - destruct (assign vifs k _); simpl; split; auto.
  - split; [reflexivity|]. right. reflexivity.
Qed.

(** The loop over its first [k] rounds: the columns are zeroed one after
    the other and none is put back. *)
Lemma VIF_rounds_zero (fitter : Fitter F) (o : OLS F) (v0 : list F)
    (k : nat) :
  wf (df_data (x o)) ->
  n o = Z.of_nat (rows (df_data (x o))) ->
  n (snd (mfold (VIF_round fitter) (seq 0 k) v0 o)) = n o /\
  match fst (mfold (VIF_round fitter) (seq 0 k) v0 o) with
  | Ok _ => df_data (x (snd (mfold (VIF_round fitter) (seq 0 k) v0 o)))
            = zero_columns k (df_data (x o))
  | Panic e =>
      exists j, j <= k /\
        df_data (x (snd (mfold (VIF_round fitter) (seq 0 k) v0 o)))
        = zero_columns j (df_data (x o)) /\
        (e = VIFError -> 1 <= j)
  end.
Proof.
  intros Hwf Hn. induction k as [|k IH].
  - simpl. split; [reflexivity|]. symmetry. apply zero_columns_0, Hwf.
  - rewrite seq_S, mfold_app. simpl.
    destruct (mfold (VIF_round fitter) (seq 0 k) v0 o) as [[v|e] o1];
      simpl in IH |- *; destruct IH as (Hn1 & IH).
    + unfold bind, ret.
      assert (Hn1' : n o1 = Z.of_nat (rows (df_data (x o))))
        by congruence.
      pose proof (@VIF_round_zeroes fitter (df_data (x o)) v k o1 Hn1' IH)
        as (Hn2 & Hres).
      destruct (VIF_round fitter v k o1) as [[v'|e] o2]; simpl in *.
      * split; [congruence|exact Hres].
      * split; [congruence|].
        destruct Hres as [(Hd & Hne)|Hd].
        -- exists k. repeat split; auto. intros ->. contradiction.
        -- exists (S k). repeat split; auto. lia.
    + split; [exact Hn1|].
      destruct IH as (j & Hj & Hd & He). exists j. repeat split; auto.
Qed.

End VIFZeroes.

(** When [VarianceInflationFactors] panics, the design is left with its
    first [k] columns zeroed, for some [k] up to [p]: the rounds zero one
    column after the other, and the saved copy is put back only by the
    statement before [return].  When the panic is the one of a failed
    refit, at least the first column is zeroed. *)
Theorem VarianceInflationFactors_panic_leaves_zeroed_columns
    {F : Type} `{Scalar F} (fitter : Fitter F) (o o' : OLS F) (e : string) :
  wf (df_data (x o)) ->
  n o = Z.of_nat (rows (df_data (x o))) ->
  VarianceInflationFactors fitter o = (Panic e, o') ->
  exists k,
    k <= Z.to_nat (p o) /\
    df_data (x o') = zero_columns k (df_data (x o)) /\
    (e = VIFError -> 1 <= k).
Proof.
  intros Hwf Hn. unfold VarianceInflationFactors, bind, get, lift, put, ret.
  unfold make. destruct (p o <? 0)%Z.
  - intros E. injection E as <- <-. exists 0. split; [lia|].
    split; [symmetry; apply zero_columns_0, Hwf|]. discriminate.
  - pose proof (VIF_rounds_zero fitter o (repeat f0 (Z.to_nat (p o)))
                  (Z.to_nat (p o)) Hwf Hn) as (_ & Hres).
    unfold upto.
    destruct (mfold (VIF_round fitter) (seq 0 (Z.to_nat (p o)))
                (repeat f0 (Z.to_nat (p o))) o) as [[v|e1] o1];
      [discriminate|].
    simpl in Hres. intros E. injection E as <- <-. exact Hres.
Qed.

Lemma VarianceInflationFactors_panic_on_o345 :
  exists o' k,
    VarianceInflationFactors checking_fitter (o345 (F := float))
      = (Panic VIFError, o') /\
    k <= 2 /\
    df_data (x o') = zero_columns k (df_data (x (o345 (F := float)))) /\
    1 <= k.
Proof.
  pose (res := VarianceInflationFactors checking_fitter (o345 (F := float))).
  assert (E : VarianceInflationFactors checking_fitter (o345 (F := float))
              = (Panic VIFError, snd res))
    by (vm_compute; reflexivity).
  destruct (@VarianceInflationFactors_panic_leaves_zeroed_columns float _
              checking_fitter o345 (snd res) VIFError eq_refl eq_refl E)
    as (k & Hk & Hd & H1).
  exists (snd res), k. repeat split; auto.
Defined.

(** ** [DFBETA] and [DFFITS]: what the fan-out can and cannot do *)

Section InfluenceFacts.
Context {F : Type} `{Scalar F}.

Lemma DFBETA_keeps_zeros (o : OLS F) (k : nat)
    (c : config (OLS F * list F) unit) :
  reachable (DFBETA_program o) (o, repeat f0 k) (Running c) ->
  shared c = (o, repeat f0 k).
Proof.
  intros Hreach.
  refine (@shared_invariant _ _ (DFBETA_program o)
            (fun s => s = (o, repeat f0 k)) _ _ (o, repeat f0 k) c
            eq_refl Hreach).
  - intros idx. unfold DFBETA_program, DFBETA_body; simpl.
    constructor; [|constructor].
    intros i l s l' s' Ea ->. simpl in Ea. unfold assign in Ea.
    destruct (i <? length (repeat f0 k)); simpl in Ea; [|discriminate].
    injection Ea as _ <-. rewrite upd_repeat. reflexivity.
  - constructor.
Qed.

Lemma DFFITS_start_bound (lib : Linalg F) (fitter : Fitter F) (o o' : OLS F)
    (prog : program (OLS F * list F) (list F)) (d : list F) :
  DFFITS_start lib fitter o = (Ok (prog, d), o') ->
  bound prog = Z.to_nat (n o).
Proof.
  unfold DFFITS_start, bind, get, lift, put, ret.
  pose proof (LeveragePoints_keeps lib o) as Hk.
  destruct (LeveragePoints lib o) as [[h|e] o1]; [|discriminate].
  simpl in Hk. destruct Hk as (_ & Hn & _).
  unfold make. destruct (n o1 <? 0)%Z; [discriminate|].
  intros E. injection E as <- _ _. simpl.
  rewrite repeat_length, Hn. reflexivity.
Qed.

End InfluenceFacts.

(** Whenever [DFBETA] returns, it returns [n] zeros and the model is the
    one it was called on; and it returns only with at least [NCPU]
    observations (the second loop receives [NCPU] completions). *)
Theorem DFBETA_returns_zeros
    {F : Type} `{Scalar F} (o : OLS F)
    (prog : program (OLS F * list F) unit) (s0 : OLS F * list F)
    (st : state (OLS F * list F) unit) (s : OLS F * list F) :
  DFBETA_start o = Ok (prog, s0) ->
  reachable prog s0 st ->
  returned st s ->
  s = (o, repeat f0 (Z.to_nat (n o))) /\ (Z.of_nat NCPU <= n o)%Z.
Proof.
  unfold DFBETA_start, make.
  destruct (n o <? 0)%Z eqn:En; [discriminate|].
  simpl. intros E Hreach Hret. injection E as <- <-. split.
  - destruct Hret as (c & -> & _ & <-).
    apply DFBETA_keeps_zeros. exact Hreach.
  - destruct (Z_lt_le_dec (n o) (Z.of_nat NCPU)) as [Hlt|Hge]; [|exact Hge].
    exfalso.
    apply (@no_return_below_NCPU _ _ (DFBETA_program o)
             (o, repeat f0 (Z.to_nat (n o))) s st); auto.
    simpl. apply Z.ltb_ge in En. unfold NCPU in *. lia.
Qed.

Lemma DFBETA_returns_zeros_on_o5 :
  exists st,
    run (DFBETA_program (o5 (F := float))) eager_DFBETA
        (Running (initial _ (o5, repeat 0%float 5))) = Some st /\
    returned st (o5, repeat 0%float 5) /\
    (Z.of_nat NCPU <= n (o5 (F := float)))%Z.
Proof.
  pose (st := Running
                (mkConfig Returned 5
                   [Finished; Finished; Finished; Finished;
                    Working (S := OLS float * list float) (L := unit) [] tt]
                   0 (o5, repeat 0%float 5))).
  assert (E : run (DFBETA_program (o5 (F := float))) eager_DFBETA
                (Running (initial _ (o5, repeat 0%float 5))) = Some st)
    by (vm_compute; reflexivity).
  assert (Hret : returned st (o5 (F := float), repeat 0%float 5)).
  { eexists. split; [reflexivity|]. split; reflexivity. }
  exists st. split; [exact E|]. split; [exact Hret|].
  exact (proj2 (@DFBETA_returns_zeros float _ o5 _ _ st _ eq_refl
                  (ex_intro _ eager_DFBETA E) Hret)).
Defined.

(** [DFBETA] can crash on every model with an observation: a goroutine
    that runs after the first loop has ended reads the loop variable at
    [n] and writes [dfs[n]]. *)
Theorem DFBETA_can_crash
    {F : Type} `{Scalar F} (o : OLS F) :
  (1 <= n o)%Z ->
  exists prog s0,
    DFBETA_start o = Ok (prog, s0) /\
    reachable prog s0 (Crashed ErrSliceIndex).
Proof.
  intros Hn. unfold DFBETA_start. rewrite make_ok by lia. simpl.
  eexists. eexists. split; [reflexivity|].
  exists (repeat RunMain (2 * Z.to_nat (n o)) ++ [RunThread 0]).
  rewrite run_app, main_spawns by (simpl; lia).
  simpl. unfold thread_step. simpl. unfold started.
  destruct (Z.to_nat (n o)) as [|k] eqn:Ek; [lia|].
  cbn [seq map]. cbn [body DFBETA_program DFBETA_body local0 snd fst].
  unfold assign. rewrite repeat_length.
  replace (S k <? S k) with false by (symmetry; apply Nat.ltb_ge; lia).
  reflexivity.
Qed.

Lemma DFBETA_can_crash_on_o5 :
  exists prog s0,
    DFBETA_start (o5 (F := float)) = Ok (prog, s0) /\
    reachable prog s0 (Crashed ErrSliceIndex).
Proof.
  apply (@DFBETA_can_crash float _ o5). simpl. lia.
Defined.

(** With fewer than [NCPU] observations no schedule lets [DFFITS]
    return: its second loop waits for [NCPU] completions, and only as
    many goroutines as observations can send one. *)
Theorem DFFITS_never_returns_below_NCPU
    {F : Type} `{Scalar F} (lib : Linalg F) (fitter : Fitter F)
    (o o' : OLS F) (prog : program (OLS F * list F) (list F))
    (d : list F) (st : state (OLS F * list F) (list F))
    (s : OLS F * list F) :
  (n o < Z.of_nat NCPU)%Z ->
  DFFITS_start lib fitter o = (Ok (prog, d), o') ->
  reachable prog (o', d) st ->
  ~ returned st s.
Proof.
  intros Hn Hstart Hreach.
  apply DFFITS_start_bound in Hstart.
  apply (@no_return_below_NCPU _ _ prog (o', d) s st); auto.
  rewrite Hstart. unfold NCPU in *. lia.
Qed.

Lemma DFFITS_never_returns_on_o22 :
  (n (o22 (F := float)) < Z.of_nat NCPU)%Z /\
  exists prog d o',
    DFFITS_start lib22 checking_fitter (o22 (F := float))
      = (Ok (prog, d), o') /\
    forall st s, reachable prog (o', d) st -> ~ returned st s.
Proof.
  split; [simpl; lia|].
  pose proof (@DFFITS_start_runs float _ lib22 checking_fitter o22 _ _
                LeveragePoints_o22 Z.le_0_2) as E.
  eexists. eexists. eexists. split; [exact E|].
  intros st s.
  apply (@DFFITS_never_returns_below_NCPU float _ lib22 checking_fitter
           o22 _ _ _ st s ltac:(simpl; lia) E).
Defined.



(** ** [LeveragePoints]: the values returned and the matrix kept *)

Section LeverageDiagonal.
Context {F : Type} `{Scalar F}.


End LeverageDiagonal.



(** ** [Transform] and then [Apply] *)

(** [Apply] on the columns of a frame that [Transform] has worked on
    sees, for each listed column, the values of the frame as it was with
    [g] applied once for every time [Transform] listed the column. *)
Theorem Apply_after_Transform
    {F : Type} `{Scalar F} (g : F -> F) (f : list F -> F)
    (cols idxs : list Z) (df : DataFrame F) :
  wf_df df ->
  (forall j, In j cols -> (0 <= j < Z.of_nat (df_cols df))%Z) ->
  length idxs <= df_cols df ->
  Forall (fun j => (0 <= j < Z.of_nat (df_cols df))%Z) idxs ->
  exists df',
    Transform g cols df = (Ok tt, df') /\
    Apply f true idxs df'
    = Ok (map (fun j =>
                 f (map (Nat.iter (times_listed cols (Z.to_nat j)) g)
                        (column (df_data df) (Z.to_nat j))))
              idxs).
Proof.
  intros Hwf Hcols Hlen Hall.
  destruct (Transform_entries g cols Hwf)
    as (Hwf' & Hr & Hc & _ & Hok & Hent).
  rewrite (@applied_all _ _ Hcols) in Hok, Hent.
  destruct (Transform g cols df) as [res df'] eqn:E. simpl in *.
  exists df'. split; [f_equal; apply Hok; reflexivity|].
  destruct Hwf as (_ & Hr0 & Hc0). destruct Hwf' as (_ & Hr1 & Hc1).
  unfold Apply. rewrite applyCols_runs; try congruence.
  - f_equal. apply map_ext_in. intros j Hj. f_equal.
    rewrite Forall_forall in Hall. specialize (Hall j Hj).
    unfold column. rewrite map_map.
    replace (rows (df_data df')) with (rows (df_data df)) by congruence.
    apply map_ext_in. intros r Hin. apply in_seq in Hin.
    apply Hent; lia.
  - rewrite Hc. exact Hall.
Qed.

(** The frame and the calls of [TestTransformDF]: the sums of the columns
    after adding 1 to the columns 0 and 2. *)
Lemma Apply_after_Transform_on_test_frame :
  exists df',
    Transform (fun v => PrimFloat.add v 1) [0; 2]%Z
      (mkDF (mkDense 3 3 [1; 2; 3; 4; 5; 6; 7; 8; 9]%float) 3 3
            ["a"; "b"; "c"]%string)
    = (Ok tt, df') /\
    Apply fsum true [0; 1; 2]%Z df' = Ok [15; 15; 21]%float.
Proof.
  destruct (@Apply_after_Transform float _ (fun v => PrimFloat.add v 1) fsum
              [0; 2]%Z [0; 1; 2]%Z
              (mkDF (mkDense 3 3 [1; 2; 3; 4; 5; 6; 7; 8; 9]%float) 3 3
                    ["a"; "b"; "c"]%string))
    as (df' & E & Ha).
  - repeat split.
  - intros j [<-|[<-|[]]]; simpl; lia.
  - simpl. lia.
  - repeat constructor; simpl; lia.
  - exists df'. split; [exact E|]. rewrite Ha. vm_compute. reflexivity.
Defined.
